(** * A shallow embedding of the draggable to-do list (src/app.ts)

    The page is a form that adds projects, two lists ('active' and
    'finished') that show them, and drag and drop between the lists.  The
    embedding follows the TypeScript: handlers are commands of a small
    state-and-exception monad over the page, the store keeps its listeners
    as callbacks, and event dispatch passes the receiver ([this]) the way
    the browser does.

    The embedded source is [app.ts].  The files it references
    ([projectModel.ts], [projectState.ts], [validate.ts],
    [autobindDecorator.ts]) are modelled from the specification; each such
    definition says so in its comment. *)

From Stdlib Require Import String Ascii NArith ZArith Bool Lia.
From Stdlib Require Import List Permutation.
From Stdlib Require Import DecimalString DecimalN.
From Stdlib Require Import Floats.
Import ListNotations.
Local Open Scope list_scope.

(* ================================================================== *)
(** * Part I: definitions                                              *)
(* ================================================================== *)

(** ** Strings

    A JavaScript string is a sequence of UTF-16 code units, and [length]
    counts code units.  The Japanese literals of the source are therefore
    written as their code units. *)

Definition code_unit := N.
Definition jsstring := list code_unit.

(** An ASCII literal as a JavaScript string. *)
Definition js (s : string) : jsstring :=
  map N_of_ascii (list_ascii_of_string s).

(** [a === b] on strings. *)
Fixpoint str_eqb (a b : jsstring) : bool :=
  match a, b with
  | [], [] => true
  | x :: a', y :: b' => N.eqb x y && str_eqb a' b'
  | _, _ => false
  end.

(** [v === lit] where [v] may be [undefined] ([None]). *)
Definition strict_eq_str (v : option jsstring) (lit : jsstring) : bool :=
  match v with
  | Some s => str_eqb s lit
  | None => false
  end.

(** White space and line terminators, the code units [trim] removes. *)
Definition isWhiteSpace (c : code_unit) : bool :=
  existsb (N.eqb c)
    [9; 10; 11; 12; 13; 32; 160; 5760; 8232; 8233; 8239; 8287; 12288; 65279]%N
  || (N.leb 8192 c && N.leb c 8202).

Fixpoint trimStart (s : jsstring) : jsstring :=
  match s with
  | c :: s' => if isWhiteSpace c then trimStart s' else s
  | [] => []
  end.

Definition trimEnd (s : jsstring) : jsstring := rev (trimStart (rev s)).

Definition trim (s : jsstring) : jsstring := trimEnd (trimStart s).

(** The literals of app.ts. *)
Definition text_plain : jsstring := js "text/plain".
Definition lit_active : jsstring := js "active".
Definition lit_finished : jsstring := js "finished".
(** '人日' *)
Definition suffix_days : jsstring := [20154; 26085]%N.
(** '人月' *)
Definition suffix_months : jsstring := [20154; 26376]%N.
(** '入力値が正しくありません' *)
Definition alert_message : jsstring :=
  [20837; 21147; 20516; 12364; 27491; 12375; 12367; 12354; 12426; 12414; 12379; 12435]%N.

(** ** Numbers

    The source uses four operations on JavaScript numbers: unary plus on a
    string, [<] (and [>]), [/] and [toString], besides numeric literals.
    They are IEEE-754 operations; the embedding takes them as an interface,
    so that every statement about the page holds for any implementation of
    it. *)

Class JSNumber (number : Type) := {
  ToNumber : jsstring -> number;
  num_lt : number -> number -> bool;
  num_div : number -> number -> number;
  num_toString : number -> jsstring;
  num_of_N : N -> number
}.

(** ** projectModel.ts *)

(** Modelled from the spec: projectModel.ts is missing; "status: one of
    Active, Finished". *)
Inductive ProjectStatus := Active | Finished.

Definition status_eqb (a b : ProjectStatus) : bool :=
  match a, b with
  | Active, Active | Finished, Finished => true
  | _, _ => false
  end.

(** Modelled from the spec: projectModel.ts is missing; a Project has an
    id, a title, a description, an effort in person-days and a status. *)
Record Project {number : Type} := mkProject {
  id : jsstring;
  title : jsstring;
  description : jsstring;
  manday : number;
  status : ProjectStatus
}.
Arguments Project number : clear implicits.
Arguments mkProject {number} _ _ _ _ _.

Definition with_status {number} (p : Project number) (s : ProjectStatus) : Project number :=
  mkProject (id p) (title p) (description p) (manday p) s.

(** ** validate.ts *)

Module Validation.
Section Validate.
Context {number : Type} {JN : JSNumber number}.

(** Modelled from the spec: validate.ts is missing; a field description
    [{value, required, minLength?, maxLength?, min?, max?}]. *)
Record Validatable := mkValidatable {
  value : jsstring;
  required : bool;
  minLength : option nat;
  maxLength : option nat;
  min : option number;
  max : option number
}.

(** Modelled from the spec: validate.ts is missing; the field is invalid
    when it is required and its trimmed value is empty, when its length is
    below [minLength] or above [maxLength], or when its numeric value is
    below [min] or above [max]; every configured check must pass. *)
Definition validate (v : Validatable) : bool :=
  let isValid := true in
  let isValid :=
    if required v then isValid && negb (Nat.eqb (length (trim (value v))) 0)
    else isValid in
  let isValid :=
    match minLength v with
    | Some n => isValid && negb (Nat.ltb (length (value v)) n)
    | None => isValid
    end in
  let isValid :=
    match maxLength v with
    | Some n => isValid && negb (Nat.ltb n (length (value v)))
    | None => isValid
    end in
  let isValid :=
    match min v with
    | Some lo => isValid && negb (num_lt (ToNumber (value v)) lo)
    | None => isValid
    end in
  let isValid :=
    match max v with
    | Some hi => isValid && negb (num_lt hi (ToNumber (value v)))
    | None => isValid
    end in
  isValid.

End Validate.
Arguments Validatable number : clear implicits.
Arguments mkValidatable {number} _ _ _ _ _ _.
End Validation.

(** ** projectState.ts: the observable store *)

(** The specification leaves one point of the store open: whether a
    [changeProjectState] that finds its project with the requested status
    already set still notifies the listeners.  Its description of the
    operation speaks of a status that differs; its design notes report
    that the source notifies on every call that finds its project.  The
    store takes the answer as a parameter, and what is proved of the store
    and of the page holds for both answers. *)
Class Protocol := { notifiesUnchanged : bool }.

(** The answer the design notes report of the source. *)
Definition asReported : Protocol := {| notifiesUnchanged := true |}.

Section ProjectState.
Context {number : Type} {W : Type}.

(** A listener is a callback [(projects) => void].  It receives an array,
    which it may mutate, and acts on the rest of the page [W]; it returns
    the array as it left it and the page as it left it.  Listeners do not
    call back into the store (the spec's notification rounds do not
    nest). *)
Definition Listener := list (Project number) -> W -> list (Project number) * W.

(** Modelled from the spec: projectState.ts is missing; the store "holds an
    ordered sequence of Project" and "a set of subscriber callbacks
    (registered, never unregistered)". *)
Record ProjectState := mkState {
  projects : list (Project number);
  listeners : list Listener
}.

(** One invocation of a listener, as recorded by the instrumented
    semantics: which listener (its position in registration order), the
    array it was handed, and the page as it was at that moment. *)
Record Call := mkCall {
  callee : nat;
  received : list (Project number);
  seen : W
}.

(** The whole system: the store, the page, and the record of listener
    invocations so far. *)
Record Sys := mkSys {
  state : ProjectState;
  world : W;
  calls : list Call
}.

(** Commands either return or throw (a TypeError, say). *)
Inductive outcome (A : Type) :=
| Returns (a : A) (s : Sys)
| Throws (e : jsstring) (s : Sys).
Arguments Returns {A} _ _.
Arguments Throws {A} _ _.

Definition M (A : Type) := Sys -> outcome A.

Definition ret {A} (a : A) : M A := fun s => Returns a s.

Definition bind {A B} (m : M A) (k : A -> M B) : M B :=
  fun s =>
    match m s with
    | Returns a s' => k a s'
    | Throws e s' => Throws e s'
    end.

Definition throw {A} (e : jsstring) : M A := fun s => Throws e s.

(** Commands that read or update the page. *)
Definition getWorld : M W := fun s => Returns (world s) s.
Definition modifyWorld (f : W -> W) : M unit :=
  fun s => Returns tt (mkSys (state s) (f (world s)) (calls s)).

(** The state a command ends in, whether it returned or threw. *)
Definition final {A} (o : outcome A) : Sys :=
  match o with
  | Returns _ s => s
  | Throws _ s => s
  end.

Definition returned {A} (o : outcome A) : bool :=
  match o with
  | Returns _ _ => true
  | Throws _ _ => false
  end.

(** [this.projects.slice()]: a new array with the same elements. *)
Definition slice (ps : list (Project number)) : list (Project number) := ps.

(** Modelled from the spec: projectState.ts is missing; the change protocol
    invokes "every registered listener exactly once, synchronously, in
    registration order, passing a snapshot (copy) of the full current
    sequence".  Each listener gets its own copy of the store's array; what
    the listener leaves in that copy is dropped. *)
Fixpoint callListeners (i : nat) (ls : list Listener) (ps : list (Project number))
    (w : W) (log : list Call) : W * list Call :=
  match ls with
  | [] => (w, log)
  | listenerFn :: rest =>
      let snapshot := slice ps in
      let '(_, w') := listenerFn snapshot w in
      callListeners (S i) rest ps w' (log ++ [mkCall i snapshot w])
  end.

Definition updateListeners : M unit :=
  fun s =>
    let '(w', log') :=
      callListeners 0 (listeners (state s)) (projects (state s)) (world s) (calls s) in
    Returns tt (mkSys (state s) w' log').

(** Modelled from the spec: projectState.ts is missing; [addListener]
    "registers a callback"; there is no unregister operation. *)
Definition addListener (listenerFn : Listener) : M unit :=
  fun s =>
    Returns tt
      (mkSys (mkState (projects (state s)) (listeners (state s) ++ [listenerFn]))
             (world s) (calls s)).

Section WithIds.
(** The id generator: given the projects in the store, the id of the next
    one.  The spec only says the id is "freshly generated" and "unique". *)
Variable freshId : list (Project number) -> jsstring.

(** Modelled from the spec: projectState.ts is missing; [addProject]
    "constructs a new Project with a freshly generated unique id and
    status = Active, appends it to the end of the sequence, then invokes
    the change protocol". *)
Definition addProject (title description : jsstring) (manday : number) : M unit :=
  fun s =>
    let newProject :=
      mkProject (freshId (projects (state s))) title description manday Active in
    updateListeners
      (mkSys (mkState (projects (state s) ++ [newProject]) (listeners (state s)))
             (world s) (calls s)).

End WithIds.

(** The project at the first position whose id is [projectId] gets the
    status [newStatus]; it keeps its place. *)
Fixpoint setStatus (projectId : jsstring) (newStatus : ProjectStatus)
    (ps : list (Project number)) : list (Project number) :=
  match ps with
  | [] => []
  | prj :: rest =>
      if str_eqb (id prj) projectId then with_status prj newStatus :: rest
      else prj :: setStatus projectId newStatus rest
  end.

Context {Q : Protocol}.

(** Modelled from the spec: projectState.ts is missing;
    [changeProjectState] "looks up the project by id; if found and
    newStatus differs from current status, updates status in place and
    invokes the change protocol.  If no project with that id exists, the
    operation is a no-op".  When the project is found with the requested
    status already set, the listeners are notified or not as [Protocol]
    says. *)
Definition changeProjectState (projectId : jsstring) (newStatus : ProjectStatus) : M unit :=
  fun s =>
    match find (fun prj => str_eqb (id prj) projectId) (projects (state s)) with
    | Some project =>
        if status_eqb (status project) newStatus && negb notifiesUnchanged
        then Returns tt s
        else
          updateListeners
            (mkSys (mkState (setStatus projectId newStatus (projects (state s)))
                            (listeners (state s)))
                   (world s) (calls s))
    | None => Returns tt s
    end.

End ProjectState.

Arguments Listener number W : clear implicits.
Arguments ProjectState number W : clear implicits.
Arguments Call number W : clear implicits.
Arguments Sys number W : clear implicits.
Arguments outcome number W A : clear implicits.
Arguments M number W A : clear implicits.
Arguments Returns {number W A} _ _.
Arguments Throws {number W A} _ _.

Declare Scope page_scope.
Delimit Scope page_scope with page.
Notation "x <- m ;; k" := (bind m (fun x => k))
  (at level 61, m at next level, right associativity) : page_scope.
Notation "m ;; k" := (bind m (fun _ => k))
  (at level 61, right associativity) : page_scope.

(** ** app.ts: the page outside the store *)

(** The parameter [type: 'active' | 'finished'] of [ProjectList]. *)
Inductive ListType := active | finished.

Definition ListType_eqb (t t' : ListType) : bool :=
  match t, t' with
  | active, active | finished, finished => true
  | _, _ => false
  end.

Definition type_string (t : ListType) : jsstring :=
  match t with
  | active => lit_active
  | finished => lit_finished
  end.

(** The components the page creates, and what a handler can find as its
    receiver: a component instance, or the root element of a component (the
    browser calls a listener with [this] set to the element the listener
    was added to). *)
Inductive Component := TheInput | TheList (t : ListType).
Inductive Receiver := ThisInstance (c : Component) | ThisElement (c : Component).

(** The drag payload: the formats it declares, in order, and the data
    stored under each format. *)
Record DataTransfer := mkDataTransfer {
  types : list jsstring;
  items : list (jsstring * jsstring)
}.

(** [dataTransfer.getData(format)]: the data stored under [format], or the
    empty string. *)
Definition getData (dt : DataTransfer) (format : jsstring) : jsstring :=
  match find (fun kv => str_eqb (fst kv) format) (items dt) with
  | Some kv => snd kv
  | None => []
  end.

(** An event as the handlers use it: [event.dataTransfer] may be null. *)
Record Event := mkEvent {
  dataTransfer : option DataTransfer
}.

(** An element below one of the two [ul]s.  A [ProjectItem] mounts an [li]
    with an id and, from the 'single-project' template, an [h2], an [h3]
    and a [p]; [item_texts] holds their texts, and is [None] once
    [innerHTML = ''] has removed them.  [item_children] are the elements
    appended to it since. *)
#[warnings="-register-all"]
Inductive ItemElement :=
  mkElement (item_id : jsstring)
            (item_texts : option (jsstring * jsstring * jsstring))
            (item_children : list ItemElement).

Definition item_id (e : ItemElement) : jsstring :=
  match e with mkElement i _ _ => i end.
Definition item_texts (e : ItemElement) : option (jsstring * jsstring * jsstring) :=
  match e with mkElement _ c _ => c end.
Definition item_children (e : ItemElement) : list ItemElement :=
  match e with mkElement _ _ ch => ch end.

(** The [li] as a [ProjectItem] leaves it. *)
Definition mkItem (i h2 h3 p : jsstring) : ItemElement :=
  mkElement i (Some (h2, h3, p)) [].

(** [e.innerHTML = ''] *)
Definition clearElement (e : ItemElement) : ItemElement :=
  mkElement (item_id e) None [].

(** [e.insertAdjacentElement('beforeend', c)] *)
Definition appendChild (c : ItemElement) (e : ItemElement) : ItemElement :=
  mkElement (item_id e) (item_texts e) (item_children e ++ [c]).

(** The element emptied and then holding the given items. *)
Definition filledWith (its : list ItemElement) (e : ItemElement) : ItemElement :=
  mkElement (item_id e) None its.

(** Whether the element, or an element below it, has the id. *)
Fixpoint hasId (x : jsstring) (e : ItemElement) : bool :=
  match e with
  | mkElement i _ ch => str_eqb i x || existsb (hasId x) ch
  end.

(** The first element of a sequence that [g] finds something in, replaced
    by what [g] makes of it. *)
Definition onFirstOf {A} (g : A -> option A) : list A -> option (list A) :=
  fix go (es : list A) : option (list A) :=
    match es with
    | [] => None
    | e :: rest =>
        match g e with
        | Some e' => Some (e' :: rest)
        | None => option_map (cons e) (go rest)
        end
    end.

(** [f] applied to the first element, in tree order, that has the id: the
    element itself, or the first below it. *)
Fixpoint onFirst (x : jsstring) (f : ItemElement -> ItemElement) (e : ItemElement)
    : option ItemElement :=
  match e with
  | mkElement i c ch =>
      if str_eqb i x then Some (f e)
      else option_map (mkElement i c) (onFirstOf (onFirst x f) ch)
  end.

(** What [document.getElementById] finds: an element outside the two
    [ul]s, the [ul] of a list, or the first element with the id below the
    [ul] of a list. *)
Inductive Handle :=
| Elsewhere (x : jsstring)
| TheUl (t : ListType)
| Below (t : ListType) (x : jsstring).

(** The ids of the elements that come before the lists in the document:
    the three templates, 'app', and the form with its three inputs, which
    [ProjectInput] puts at the start of 'app'.  The markup is not part of
    the sources: it is taken to declare the templates before the element
    'app', whose content the page builds, and to give no other id to an
    element of a template. *)
Definition idsBeforeLists : list jsstring :=
  [js "project-input"; js "single-project"; js "project-list"; js "app";
   js "user-input"; js "title"; js "description"; js "manday"].

(** `${type}-projects`, the id of the root element of a list, and
    `${type}-projects-list`, the id [renderContent] gives its [ul]. *)
Definition rootId (t : ListType) : jsstring := type_string t ++ js "-projects".
Definition listId (t : ListType) : jsstring := type_string t ++ js "-projects-list".

Definition handle_id (h : Handle) : jsstring :=
  match h with
  | Elsewhere x => x
  | TheUl t => listId t
  | Below _ x => x
  end.

Definition type_error : jsstring := js "TypeError".

Section Page.
Context {number : Type} {JN : JSNumber number} {Q : Protocol}.

(** A [ProjectList] with the part of the document it owns: its cached
    projects, the [type] property of its root element (whatever the markup
    gives that element; [None] is [undefined]), the children of its [ul],
    whether the [ul] carries the class 'droppable', and how many times
    [renderProjects] ran. *)
Record ProjectList := mkList {
  assignedProjects : list (Project number);
  element_type : option jsstring;
  ul_items : list ItemElement;
  ul_droppable : bool;
  renders : nat
}.

(** The page outside the store: the three inputs of the form, the alerts
    shown so far, whether the event being dispatched had its default
    prevented, and the two lists. *)
Record World := mkWorld {
  titleInput : jsstring;
  descriptionInput : jsstring;
  mandayInput : jsstring;
  alerts : list jsstring;
  defaultPrevented : bool;
  activeList : ProjectList;
  finishedList : ProjectList
}.

Definition getList (t : ListType) (w : World) : ProjectList :=
  match t with
  | active => activeList w
  | finished => finishedList w
  end.

Definition setList (t : ListType) (l : ProjectList) (w : World) : World :=
  match t with
  | active =>
      mkWorld (titleInput w) (descriptionInput w) (mandayInput w) (alerts w)
              (defaultPrevented w) l (finishedList w)
  | finished =>
      mkWorld (titleInput w) (descriptionInput w) (mandayInput w) (alerts w)
              (defaultPrevented w) (activeList w) l
  end.

Definition Page := Sys number World.
Definition Cmd := M number World.

Local Open Scope page_scope.

(** [event.preventDefault()] *)
Definition preventDefault : Cmd unit :=
  modifyWorld (fun w =>
    mkWorld (titleInput w) (descriptionInput w) (mandayInput w) (alerts w)
            true (activeList w) (finishedList w)).

(** [alert(message)] *)
Definition alert (message : jsstring) : Cmd unit :=
  modifyWorld (fun w =>
    mkWorld (titleInput w) (descriptionInput w) (mandayInput w) (alerts w ++ [message])
            (defaultPrevented w) (activeList w) (finishedList w)).

(** *** ProjectItem *)

(** [get manday()] of [ProjectItem], lines 38-44. *)
Definition ProjectItem_manday (project : Project number) : jsstring :=
  let man := manday project in
  if num_lt (manday project) (num_of_N 20) then
    num_toString man ++ suffix_days
  else
    num_toString (num_div man (num_of_N 20)) ++ suffix_months.

(** [new ProjectItem(hostId, project)]: the element gets the project's id
    (Component's constructor), and [renderContent] fills in the texts. *)
Definition ProjectItem (project : Project number) : ItemElement :=
  mkItem (id project) (title project) (ProjectItem_manday project) (description project).

(** The payload a drag of this item carries to the lists when it started
    with none: the id of the project under 'text/plain', the only format
    ([dragStartHandler], lines 54-59). *)
Definition dragStartHandler (project : Project number) : DataTransfer :=
  mkDataTransfer [text_plain] [(text_plain, id project)].

(** *** ProjectList *)

(** [this.type], read on whatever the receiver is. *)
Definition this_type (this : Receiver) (w : World) : option jsstring :=
  match this with
  | ThisInstance (TheList t) => Some (type_string t)
  | ThisInstance TheInput => None
  | ThisElement (TheList t) => element_type (getList t w)
  | ThisElement TheInput => None
  end.

Definition setDroppable (t : ListType) (b : bool) (w : World) : World :=
  let l := getList t w in
  setList t (mkList (assignedProjects l) (element_type l) (ul_items l) b (renders l)) w.

(** [dragOverHandler], lines 88-94.  [this.element] exists on a
    [ProjectList] only. *)
Definition dragOverHandler (this : Receiver) (event : Event) : Cmd unit :=
  match dataTransfer event with
  | Some dt =>
      if strict_eq_str (nth_error (types dt) 0) text_plain then
        preventDefault ;;
        match this with
        | ThisInstance (TheList t) => modifyWorld (setDroppable t true)
        | _ => throw type_error
        end
      else ret tt
  | None => ret tt
  end.

(** [dragLeaveHandler], lines 96-99. *)
Definition dragLeaveHandler (this : Receiver) (_ : Event) : Cmd unit :=
  match this with
  | ThisInstance (TheList t) => modifyWorld (setDroppable t false)
  | _ => throw type_error
  end.

(** [dropHandler], lines 101-104.  [event.dataTransfer!] throws when the
    event has no payload. *)
Definition dropHandler (this : Receiver) (event : Event) : Cmd unit :=
  match dataTransfer event with
  | Some dt =>
      let prj := getData dt text_plain in
      w <- getWorld ;;
      changeProjectState prj
        (if strict_eq_str (this_type this w) lit_active then Active else Finished)
  | None => throw type_error
  end.

Definition setItems (t : ListType) (its : list ItemElement) (w : World) : World :=
  let l := getList t w in
  setList t (mkList (assignedProjects l) (element_type l) its (ul_droppable l) (renders l)) w.

Definition countRender (t : ListType) (w : World) : World :=
  let l := getList t w in
  setList t (mkList (assignedProjects l) (element_type l) (ul_items l) (ul_droppable l)
                    (S (renders l))) w.

(** [document.getElementById(x)]: the first element with the id, in the
    order of the document; the empty string finds nothing.  'app' holds the
    form, then the 'active' list, then the 'finished' list (lines
    200-202); the root element of a list holds its [ul], and the [ul] the
    items. *)
Definition getElementById (x : jsstring) (w : World) : option Handle :=
  if str_eqb x [] then None
  else if existsb (str_eqb x) idsBeforeLists then Some (Elsewhere x)
  else if str_eqb x (rootId active) then Some (Elsewhere x)
  else if str_eqb x (listId active) then Some (TheUl active)
  else if existsb (hasId x) (ul_items (activeList w)) then Some (Below active x)
  else if str_eqb x (rootId finished) then Some (Elsewhere x)
  else if str_eqb x (listId finished) then Some (TheUl finished)
  else if existsb (hasId x) (ul_items (finishedList w)) then Some (Below finished x)
  else None.

(** A change made to the element a handle stands for.  What happens to the
    elements outside the two [ul]s is not recorded. *)
Definition updateElement (h : Handle) (f : ItemElement -> ItemElement) (w : World) : World :=
  match h with
  | Elsewhere _ => w
  | TheUl t =>
      setItems t (item_children (f (mkElement (listId t) None (ul_items (getList t w))))) w
  | Below t x =>
      match onFirstOf (onFirst x f) (ul_items (getList t w)) with
      | Some its => setItems t its w
      | None => w
      end
  end.

(** [new ProjectItem(hostId, project)], lines 46-52 with the constructor of
    [Component], lines 14-25: the host is looked up by its id, and the new
    [li] is put at its end. *)
Definition newProjectItem (hostId : jsstring) (project : Project number) (w : World) : World :=
  match getElementById hostId w with
  | Some hostElement => updateElement hostElement (appendChild (ProjectItem project)) w
  | None => w
  end.

(** The items of the projects, put one by one at the end of an element. *)
Definition mounted (ps : list (Project number)) (e : ItemElement) : ItemElement :=
  fold_left (fun e prj => appendChild (ProjectItem prj) e) ps e.

(** [renderProjects], lines 131-137: the element with the id of the list's
    [ul] is looked up in the document and emptied, then one item per
    assigned project is mounted in the element that has its id.  The
    counter of renderings is kept for the properties. *)
Definition renderProjects (t : ListType) (w : World) : World :=
  let w := countRender t w in
  match getElementById (listId t) w with
  | Some li =>
      fold_left (fun w prj => newProjectItem (handle_id li) prj w)
                (assignedProjects (getList t w))
                (updateElement li clearElement w)
  | None => w
  end.

Definition setAssigned (t : ListType) (ps : list (Project number)) (w : World) : World :=
  let l := getList t w in
  setList t (mkList ps (element_type l) (ul_items l) (ul_droppable l) (renders l)) w.

(** The listener [configure] registers with the store, lines 119-128.  It
    is an arrow function, so [this] is the list that registered it; it
    reads the array it receives and does not change it. *)
Definition projectListListener (t : ListType) : Listener number World :=
  fun projects w =>
    let relevantProject :=
      filter (fun prj =>
                if str_eqb (type_string t) lit_active then status_eqb (status prj) Active
                else status_eqb (status prj) Finished)
             projects in
    (projects, renderProjects t (setAssigned t relevantProject w)).

(** *** ProjectInput *)

Section Input.
Variable freshId : list (Project number) -> jsstring.

(** [gatherInputs], lines 164-176: [None] is the [void] result. *)
Definition gatherInputs : Cmd (option (jsstring * jsstring * number)) :=
  w <- getWorld ;;
  let title := titleInput w in
  let desc := descriptionInput w in
  let man := mandayInput w in
  if negb (Validation.validate (Validation.mkValidatable title true (Some 2) None None None))
     || negb (Validation.validate (Validation.mkValidatable desc true (Some 2) None None None))
     || negb (Validation.validate
                (Validation.mkValidatable man true None None
                   (Some (num_of_N 0)) (Some (num_of_N 100))))
  then
    alert alert_message ;;
    ret None
  else ret (Some (title, desc, ToNumber man)).

(** [clearInput], lines 179-183. *)
Definition clearInput : Cmd unit :=
  modifyWorld (fun w =>
    mkWorld [] [] [] (alerts w) (defaultPrevented w) (activeList w) (finishedList w)).

(** [submitFunc], lines 186-196.  [this.gatherInputs] exists on the
    [ProjectInput] only. *)
Definition submitFunc (this : Receiver) (_ : Event) : Cmd unit :=
  preventDefault ;;
  match this with
  | ThisInstance TheInput =>
      userInput <- gatherInputs ;;
      match userInput with
      | Some (title, desc, man) =>
          clearInput ;;
          addProject freshId title desc man
      | None => ret tt
      end
  | _ => throw type_error
  end.

End Input.

(** *** Event listeners and their receivers *)

Inductive EventName := submit | dragover | dragleave | drop.

Definition EventName_eqb (a b : EventName) : bool :=
  match a, b with
  | submit, submit | dragover, dragover | dragleave, dragleave | drop, drop => true
  | _, _ => false
  end.

(** A function handed to [addEventListener]: the method, and the receiver
    it was bound to, if it was. *)
Record Callback := mkCallback {
  method : Receiver -> Event -> Cmd unit;
  boundThis : option Receiver
}.

(** Modelled from the spec: autobindDecorator.ts is missing; the decorator
    is "the pattern of binding a handler's receiver so it can be passed as a
    bare callback": reading a decorated method off an instance gives the
    method bound to that instance. *)
Definition autobind (m : Receiver -> Event -> Cmd unit) (instance : Component) : Callback :=
  mkCallback m (Some (ThisInstance instance)).

(** Reading an undecorated method off an instance gives the bare function. *)
Definition bare (m : Receiver -> Event -> Cmd unit) : Callback :=
  mkCallback m None.

(** The browser calls a listener with [this] set to the element the
    listener was added to; a bound function ignores that. *)
Definition invoke (cb : Callback) (currentTarget : Component) (event : Event) : Cmd unit :=
  match boundThis cb with
  | Some this => method cb this event
  | None => method cb (ThisElement currentTarget) event
  end.

(** What [configure] adds to the root element of each component (lines
    115-117 and 157).  [dragOverHandler], [dragLeaveHandler] and
    [submitFunc] carry [@autobind]; [dropHandler] does not. *)
Definition eventListeners (freshId : list (Project number) -> jsstring)
    (c : Component) : list (EventName * Callback) :=
  match c with
  | TheList t =>
      [ (dragover, autobind dragOverHandler (TheList t));
        (drop, bare dropHandler);
        (dragleave, autobind dragLeaveHandler (TheList t)) ]
  | TheInput =>
      [ (submit, autobind (submitFunc freshId) TheInput) ]
  end.

Fixpoint invokeAll (cbs : list (EventName * Callback)) (name : EventName)
    (currentTarget : Component) (event : Event) : Cmd unit :=
  match cbs with
  | [] => ret tt
  | (n, cb) :: rest =>
      (if EventName_eqb n name then invoke cb currentTarget event else ret tt) ;;
      invokeAll rest name currentTarget event
  end.

(** An event of the given name arrives at the root element of a
    component. *)
Definition dispatchEvent (freshId : list (Project number) -> jsstring)
    (c : Component) (name : EventName) (event : Event) : Cmd unit :=
  modifyWorld (fun w =>
    mkWorld (titleInput w) (descriptionInput w) (mandayInput w) (alerts w)
            false (activeList w) (finishedList w)) ;;
  invokeAll (eventListeners freshId c) name c event.

(** *** The page at start-up, lines 200-202 *)

(** A list as its constructor leaves it.  The root element is the first
    element of the 'project-list' template, typed [HTMLElement] in the
    source: an element with no [type] property of its own. *)
Definition emptyList : ProjectList := mkList [] None [] false 0.

Definition emptyWorld : World := mkWorld [] [] [] [] false emptyList emptyList.

Definition emptyPage : Page := mkSys (mkState [] []) emptyWorld [].

(** [new ProjectList(type)]: [configure] registers the store listener. *)
Definition newProjectList (t : ListType) : Cmd unit :=
  addListener (projectListListener t).

Definition startUp : Cmd unit :=
  newProjectList active ;;
  newProjectList finished.

End Page.

Arguments ProjectList number : clear implicits.
Arguments World number : clear implicits.
Arguments Page number : clear implicits.
Arguments Cmd number A : clear implicits.
Arguments Callback number : clear implicits.

(** ** JavaScript numbers

    The implementation of the number interface the page runs on: IEEE-754
    double precision, on the primitive floats.  [<] and [/] are the
    operations of the format; unary plus on a string and [toString] are
    written after StringToNumber and Number::toString of the language
    standard: a numeric literal is rounded to the nearest double, ties to
    even, and the text of a double has the fewest digits that still denote
    it. *)

Module Double.
Local Open Scope Z_scope.

Definition number := float.

(** [a < b] and [a / b] are the operations of the format. *)
Definition lt (a b : number) : bool := PrimFloat.ltb a b.
Definition div (a b : number) : number := PrimFloat.div a b.

(** [floor (p / q / 2^e)] with its remainder, as numerator and denominator. *)
Definition scaled (p q e : Z) : Z * Z * Z :=
  if 0 <=? e then (p / (q * 2 ^ e), p mod (q * 2 ^ e), q * 2 ^ e)
  else ((p * 2 ^ (- e)) / q, (p * 2 ^ (- e)) mod q, q).

(** The Number value for the rational [p / q], with [0 <= p] and [0 < q]:
    the double nearest to it, the one with an even significand when two
    are equally near; beyond the largest double, infinity. *)
Definition nearest (negative : bool) (p q : Z) : number :=
  if p =? 0 then (if negative then neg_zero else zero)
  else
    let l := Z.log2 p - Z.log2 q in
    let e1 := Z.max (l - 52) (-1074) in
    let '(m1, _, _) := scaled p q e1 in
    let e := if m1 <? 2 ^ 52 then Z.max (e1 - 1) (-1074) else e1 in
    let '(m, r, d) := scaled p q e in
    let m := if (d <? 2 * r) || ((d =? 2 * r) && Z.odd m) then m + 1 else m in
    let '(m, e) := if m =? 2 ^ 53 then (2 ^ 52, e + 1) else (m, e) in
    if 971 <? e then (if negative then neg_infinity else infinity)
    else if m =? 0 then (if negative then neg_zero else zero)
    else SF2Prim (S754_finite negative (Z.to_pos m) e).

Definition of_N (n : N) : number := nearest false (Z.of_N n) 1.

(** *** Number::toString, radix 10 *)

Definition digits_of_N (n : N) : jsstring :=
  js (NilZero.string_of_uint (N.to_uint n)).

Definition digitCount (z : Z) : Z := Z.of_nat (length (digits_of_N (Z.to_N z))).

(** The [n] with [10^(n-1) <= p / q < 10^n], for [0 < p] and [0 < q]. *)
Definition decimalExponent (p q : Z) : Z :=
  if q <=? p then digitCount (p / q)
  else
    let d := digitCount (q / p) in
    if q =? p * 10 ^ (d - 1) then 2 - d else 1 - d.

(** Whether [c * 10^x] has [f] as its Number value. *)
Definition decimalIs (f : number) (c x : Z) : bool :=
  PrimFloat.eqb
    (if 0 <=? x then nearest false (c * 10 ^ x) 1 else nearest false c (10 ^ (- x)))
    f.

(** The integers [s] and [n] of Number::toString for the positive finite
    double of value [p / q]: the fewest digits [k] such that some
    [s * 10^(n-k)] with [k] digits has the double as its Number value, and
    among those [s] the one nearest to the double, the even one in case of
    a tie. *)
Fixpoint shortestFrom (fuel : nat) (k : Z) (f : number) (p q n : Z) : Z * Z :=
  let x := n - k in
  let '(num, den) := if 0 <=? x then (p, q * 10 ^ x) else (p * 10 ^ (- x), q) in
  let lo := num / den in
  let r := num mod den in
  let hi := lo + 1 in
  let okLo := decimalIs f lo x in
  let okHi := negb (r =? 0) && decimalIs f hi x in
  let pick (c : Z) := if c =? 10 ^ k then (c / 10, n + 1) else (c, n) in
  match fuel with
  | O => pick lo
  | S fuel' =>
      if okLo && okHi then
        if 2 * r <? den then pick lo
        else if den <? 2 * r then pick hi
        else if Z.even lo then pick lo else pick hi
      else if okLo then pick lo
      else if okHi then pick hi
      else shortestFrom fuel' (k + 1) f p q n
  end.

Fixpoint stripZeros (fuel : nat) (s : Z) : Z :=
  match fuel with
  | O => s
  | S fuel' => if (s mod 10 =? 0) && negb (s =? 0) then stripZeros fuel' (s / 10) else s
  end.

Definition zeros (k : Z) : jsstring := repeat 48%N (Z.to_nat k).

(** The text for digits [ds] (there are [k] of them) and the exponent
    [n]. *)
Definition layout (ds : jsstring) (n : Z) : jsstring :=
  let k := Z.of_nat (length ds) in
  if (k <=? n) && (n <=? 21) then ds ++ zeros (n - k)
  else if (0 <? n) && (n <=? 21) then
    firstn (Z.to_nat n) ds ++ js "." ++ skipn (Z.to_nat n) ds
  else if (-6 <? n) && (n <=? 0) then js "0." ++ zeros (- n) ++ ds
  else
    let e := n - 1 in
    let exponent :=
      js "e" ++ (if e <? 0 then js "-" else js "+") ++ digits_of_N (Z.abs_N e) in
    match ds with
    | [d] => [d] ++ exponent
    | d :: rest => [d] ++ js "." ++ rest ++ exponent
    | [] => exponent
    end.

Definition toString (a : number) : jsstring :=
  match Prim2SF a with
  | S754_nan => js "NaN"
  | S754_zero _ => js "0"
  | S754_infinity negative => if negative then js "-Infinity" else js "Infinity"
  | S754_finite negative m e =>
      let '(p, q) := if 0 <=? e then (Zpos m * 2 ^ e, 1) else (Zpos m, 2 ^ (- e)) in
      let n := decimalExponent p q in
      let '(s, n) := shortestFrom 17 1 (abs a) p q n in
      (if negative then js "-" else [])
      ++ layout (digits_of_N (Z.to_N (stripZeros 17 s))) n
  end.

(** *** StringToNumber: unary plus on a string *)

Definition isDigit (c : code_unit) : bool := N.leb 48 c && N.leb c 57.

Fixpoint span_digits (s : jsstring) : jsstring * jsstring :=
  match s with
  | c :: r =>
      if isDigit c then let '(ds, rest) := span_digits r in (c :: ds, rest)
      else ([], s)
  | [] => ([], [])
  end.

Definition value_of_digits (ds : jsstring) : Z :=
  fold_left (fun acc c => 10 * acc + (Z.of_N c - 48)) ds 0.

(** The value of a digit in a radix up to 16, if it is one. *)
Definition digitValue (radix : Z) (c : code_unit) : option Z :=
  let v :=
    if isDigit c then Z.of_N c - 48
    else if N.leb 97 c && N.leb c 102 then Z.of_N c - 87
    else if N.leb 65 c && N.leb c 70 then Z.of_N c - 55
    else 16 in
  if v <? radix then Some v else None.

Fixpoint value_in_radix (radix : Z) (acc : Z) (s : jsstring) : option Z :=
  match s with
  | [] => Some acc
  | c :: r =>
      match digitValue radix c with
      | Some v => value_in_radix radix (radix * acc + v) r
      | None => None
      end
  end.

(** [ExponentPart] or nothing, up to the end of the string. *)
Definition parseExponent (s : jsstring) : option Z :=
  match s with
  | [] => Some 0
  | c :: r =>
      if N.eqb c 101 || N.eqb c 69 then
        let '(negative, r) :=
          match r with
          | c' :: r' =>
              if N.eqb c' 43 then (false, r')
              else if N.eqb c' 45 then (true, r')
              else (false, r)
          | [] => (false, r)
          end in
        match span_digits r with
        | ((_ :: _) as ds, []) =>
            Some (if negative then - value_of_digits ds else value_of_digits ds)
        | _ => None
        end
      else None
  end.

(** The Number value of the digits [ds] times [10^x].  Values far beyond
    the range of the format are decided without computing the power. *)
Definition decimalValue (negative : bool) (ds : jsstring) (x : Z) : number :=
  let d := value_of_digits ds in
  if d =? 0 then (if negative then neg_zero else zero)
  else
    let order := digitCount d + x in
    if 400 <? order then (if negative then neg_infinity else infinity)
    else if order <? -400 then (if negative then neg_zero else zero)
    else if 0 <=? x then nearest negative (d * 10 ^ x) 1
    else nearest negative d (10 ^ (- x)).

(** [StrUnsignedDecimalLiteral] *)
Definition parseUnsigned (negative : bool) (s : jsstring) : option number :=
  if str_eqb s (js "Infinity") then Some (if negative then neg_infinity else infinity)
  else
    let '(ip, rest) := span_digits s in
    match rest with
    | c :: r =>
        if N.eqb c 46 then
          let '(fp, rest') := span_digits r in
          match ip ++ fp with
          | [] => None
          | _ :: _ =>
              match parseExponent rest' with
              | Some x => Some (decimalValue negative (ip ++ fp) (x - Z.of_nat (length fp)))
              | None => None
              end
          end
        else
          match ip, parseExponent rest with
          | _ :: _, Some x => Some (decimalValue negative ip x)
          | _, _ => None
          end
    | [] =>
        match ip with
        | [] => None
        | _ :: _ => Some (decimalValue negative ip 0)
        end
    end.

(** [NonDecimalIntegerLiteral]: binary, octal or hexadecimal digits after
    their prefix. *)
Definition parseNonDecimal (s : jsstring) : option number :=
  match s with
  | z :: p :: ((_ :: _) as ds) =>
      if N.eqb z 48 then
        let radix :=
          if N.eqb p 98 || N.eqb p 66 then Some 2
          else if N.eqb p 111 || N.eqb p 79 then Some 8
          else if N.eqb p 120 || N.eqb p 88 then Some 16
          else None in
        match radix with
        | Some radix =>
            match value_in_radix radix 0 ds with
            | Some v => Some (nearest false v 1)
            | None => None
            end
        | None => None
        end
      else None
  | _ => None
  end.

(** Unary plus on a string: the empty string (after trimming) is 0,
    anything that is not a numeric literal is NaN. *)
Definition toNumber (s : jsstring) : number :=
  match trim s with
  | [] => zero
  | c :: r =>
      match parseNonDecimal (c :: r) with
      | Some v => v
      | None =>
          let o :=
            if N.eqb c 43 then parseUnsigned false r
            else if N.eqb c 45 then parseUnsigned true r
            else parseUnsigned false (c :: r) in
          match o with
          | Some v => v
          | None => nan
          end
      end
  end.

#[global] Instance double_number : JSNumber number := {
  ToNumber := toNumber;
  num_lt := lt;
  num_div := div;
  num_toString := toString;
  num_of_N := of_N
}.

End Double.

(** Modelled from the spec: projectState.ts is missing; [addProject]
    "constructs a new Project with a freshly generated unique id".  The
    generator of the model gives a run of zeros longer than every id in
    use. *)
Definition paddedId {number} (ps : list (Project number)) : jsstring :=
  repeat 48%N (S (list_max (map (fun prj => length (id prj)) ps))).

(** ** Sequences of store calls *)

Section StoreCalls.
Context {number : Type} {W : Type} {Q : Protocol}.
Variable freshId : list (Project number) -> jsstring.

Local Open Scope page_scope.

(** A call of one of the two mutating operations of the store. *)
Inductive StoreCall :=
| AddProject (title description : jsstring) (manday : number)
| ChangeProjectState (projectId : jsstring) (newStatus : ProjectStatus).

Definition perform (c : StoreCall) : M number W unit :=
  match c with
  | AddProject title description manday => addProject freshId title description manday
  | ChangeProjectState projectId newStatus => changeProjectState projectId newStatus
  end.

Fixpoint performAll (cs : list StoreCall) : M number W unit :=
  match cs with
  | [] => ret tt
  | c :: rest => perform c ;; performAll rest
  end.

(** Whether a call is answered with a notification round when made on
    [s]: every [addProject] is; a [changeProjectState] is when its id is
    found, unless the project already has the status and the protocol
    skips such calls. *)
Definition notifying (c : StoreCall) (s : Sys number W) : bool :=
  match c with
  | AddProject _ _ _ => true
  | ChangeProjectState projectId newStatus =>
      match find (fun prj => str_eqb (id prj) projectId) (projects (state s)) with
      | Some project => negb (status_eqb (status project) newStatus) || notifiesUnchanged
      | None => false
      end
  end.


(** One notification round, as the change protocol describes it: every
    listener is called once, in registration order, with the sequence
    [ps]; what a listener leaves in the array it received is dropped. *)
Definition deliver (ls : list (Listener number W)) (ps : list (Project number)) (w : W) : W :=
  fold_left (fun w listenerFn => snd (listenerFn ps w)) ls w.




End StoreCalls.

Arguments StoreCall number : clear implicits.
Arguments AddProject {number} _ _ _.
Arguments ChangeProjectState {number} _ _.

(** ** Spec-side vocabulary for the page *)

(** The status a list shows. *)
Definition bucketStatus (t : ListType) : ProjectStatus :=
  match t with
  | active => Active
  | finished => Finished
  end.

(** The page after start-up. *)
Definition startedPage : Page Double.number := final (startUp emptyPage).

(** The configurations [gatherInputs] validates the three inputs with. *)
Definition textCheck {number} (v : jsstring) : Validation.Validatable number :=
  Validation.mkValidatable v true (Some 2) None None None.
Definition mandayCheck {number} `{JSNumber number} (v : jsstring) : Validation.Validatable number :=
  Validation.mkValidatable v true None None (Some (num_of_N 0)) (Some (num_of_N 100)).

(** The page with the three inputs as given. *)
Definition withInputs {number} (t d m : jsstring) (w : World number) : World number :=
  mkWorld t d m (alerts w) (defaultPrevented w) (activeList w) (finishedList w).

Definition withPrevented {number} (b : bool) (w : World number) : World number :=
  mkWorld (titleInput w) (descriptionInput w) (mandayInput w) (alerts w) b
          (activeList w) (finishedList w).

Definition withAlert {number} (m : jsstring) (w : World number) : World number :=
  mkWorld (titleInput w) (descriptionInput w) (mandayInput w) (alerts w ++ [m])
          (defaultPrevented w) (activeList w) (finishedList w).

Definition onWorld {number} (f : World number -> World number) (s : Page number) : Page number :=
  mkSys (state s) (f (world s)) (calls s).

Definition inputsCleared {number} (w : World number) : Prop :=
  titleInput w = [] /\ descriptionInput w = [] /\ mandayInput w = [].

(** ** Sample data

    A short session, used to run the page on concrete inputs. *)

Section SampleData.
#[local] Existing Instance asReported.

(** A project of the given effort. *)
Definition effort (m : N) : Project Double.number :=
  mkProject (js "0") (js "Website") (js "Build it") (Double.of_N m) Active.

(** A project with the effort that unary plus reads from a text. *)
Definition effortTyped (text : string) : Project Double.number :=
  mkProject (js "0") (js "Website") (js "Build it") (Double.toNumber (js text)) Active.

(** Whether a check holds of every number from 0 to the bound. *)
Definition allUpTo (f : N -> bool) (bound : N) : bool :=
  N.peano_rect (fun _ => bool) (f 0%N) (fun n acc => acc && f (N.succ n)) bound.

(** Two projects are added; the first is moved to Finished in between. *)
Definition sampleCalls : list (StoreCall Double.number) :=
  [ AddProject (js "Website") (js "Build it") (Double.of_N 10);
    ChangeProjectState (js "0") Finished;
    AddProject (js "Shop") (js "Sell it") (Double.of_N 45) ].

Definition samplePage : Page Double.number :=
  final (performAll paddedId sampleCalls startedPage).

(** The sample page with text typed into the form. *)
Definition typed (t d m : string) : Page Double.number :=
  onWorld (withInputs (js t) (js d) (js m)) samplePage.

(** The text of the spec's end-to-end example, and the same with an effort
    out of range. *)
Definition acceptedPage : Page Double.number := typed "Website" "Build it" "10".
Definition rejectedPage : Page Double.number := typed "Website" "Build it" "150".

(** A payload that declares 'text/html' first and 'text/plain' second. *)
Definition htmlFirst : DataTransfer :=
  mkDataTransfer [js "text/html"; text_plain]
                 [(js "text/html", js "<li>0</li>"); (text_plain, js "0")].

(** The text of [r / 20] after the integer part, for [r < 20]: nothing for
    0, else a point and the hundredths [5 * r] without a trailing zero. *)
Definition twentieths (r : N) : jsstring :=
  let h := (5 * r)%N in
  if N.eqb h 0 then []
  else if N.eqb (h mod 10) 0 then js "." ++ [(48 + h / 10)%N]
  else js "." ++ [(48 + h / 10)%N; (48 + h mod 10)%N].

End SampleData.

(** ** The start of a drag (ProjectItem, lines 54-62) *)

(** [dataTransfer.setData(format, data)] belongs to the platform, not to
    the page: how it arranges the payload is left open. *)
Class DragData := {
  setData : jsstring -> jsstring -> DataTransfer -> DataTransfer
}.

(** What the page relies on: during a drag start, the data stored under a
    format is the data read back under it. *)
Definition keepsData (D : DragData) : Prop :=
  forall format data dt, getData (setData format data dt) format = data.

(** Two ways of arranging the payload.  The first removes the item stored
    under the format and adds the new one at the end. *)
Definition appending : DragData := {|
  setData format data dt :=
    mkDataTransfer
      (filter (fun ty => negb (str_eqb ty format)) (types dt) ++ [format])
      (filter (fun kv => negb (str_eqb (fst kv) format)) (items dt) ++ [(format, data)])
|}.





(** [dragEndHandler], lines 61-62: nothing happens. *)
Definition ProjectItem_dragEndHandler (event : Event) : Event := event.

(** ** Sessions: sequences of events *)

Section Sessions.
Context {number : Type} {JN : JSNumber number} {Q : Protocol}.
Variable freshId : list (Project number) -> jsstring.

(** What happens in a session: the user edits the three inputs of the
    form, or an event arrives at the root element of a component. *)
Inductive Action :=
| TypeInto (aTitle aDescription aManday : jsstring)
| Fire (target : Component) (name : EventName) (event : Event).

(** The page after the action.  A handler that throws leaves the page as
    it was when it threw, and the session goes on. *)
Definition step (a : Action) (s : Page number) : Page number :=
  match a with
  | TypeInto aTitle aDescription aManday =>
      onWorld (withInputs aTitle aDescription aManday) s
  | Fire target name event => final (dispatchEvent freshId target name event s)
  end.

Definition steps (acts : list Action) (s : Page number) : Page number :=
  fold_left (fun s a => step a s) acts s.

(** The page once lines 200-202 have run. *)
Definition initialPage : Page number := final (startUp emptyPage).

(** The projects a list is meant to show. *)
Definition viewOf (t : ListType) (ps : list (Project number)) : list (Project number) :=
  filter (fun prj => status_eqb (status prj) (bucketStatus t)) ps.

(** Each list caches the store's projects of its status, in the store's
    order. *)
Definition consistent (s : Page number) : Prop :=
  forall t, assignedProjects (getList t (world s)) = viewOf t (projects (state s)).

(** The [ul] of each list holds one item per project of its status, in the
    store's order. *)
Definition shown (s : Page number) : Prop :=
  forall t, ul_items (getList t (world s)) = map ProjectItem (viewOf t (projects (state s))).

(** What never changes in a project. *)
Definition frozen (p : Project number) : jsstring * jsstring * jsstring * number :=
  (id p, title p, description p, manday p).

(** Whether the three inputs pass the checks of [gatherInputs]. *)
Definition accepts (w : World number) : bool :=
  Validation.validate (textCheck (titleInput w))
  && Validation.validate (textCheck (descriptionInput w))
  && Validation.validate (mandayCheck (mandayInput w)).

(** Whether a drag-over event has a payload whose first declared type is
    'text/plain'. *)
Definition firstIsPlainText (ev : Event) : bool :=
  match dataTransfer ev with
  | Some dt => strict_eq_str (nth_error (types dt) 0) text_plain
  | None => false
  end.

(** The status a drop on the root element of list [t] asks for. *)
Definition dropStatus (t : ListType) (w : World number) : ProjectStatus :=
  if strict_eq_str (element_type (getList t w)) lit_active then Active else Finished.

(** The listeners start-up registers, in order. *)
Definition pageListeners : list (Listener number (World number)) :=
  [projectListListener active; projectListListener finished].

(** What a list holds besides the highlight. *)
Definition listCore (l : ProjectList number) :
    list (Project number) * option jsstring * list ItemElement * nat :=
  (assignedProjects l, element_type l, ul_items l, renders l).

(** Two pages whose lists differ in the highlight at most. *)
Definition sameLists (w w' : World number) : Prop :=
  forall t, listCore (getList t w) = listCore (getList t w').

(** The two ways the sequence of projects changes: one Active project with
    a generated id is appended, or the first project with a given id gets
    the status a drop asks for. *)
Definition storeChange (s : Page number) (ps' : list (Project number)) : Prop :=
  (exists aTitle aDescription aManday,
      ps' = projects (state s)
            ++ [mkProject (freshId (projects (state s))) aTitle aDescription aManday Active])
  \/ (exists t projectId,
        notifying (ChangeProjectState projectId (dropStatus t (world s))) s = true
        /\ ps' = setStatus projectId (dropStatus t (world s)) (projects (state s))).

(** What one action does to the page: either the store and the lists are
    as they were and nobody is notified, or the sequence of projects
    changes and one notification round runs on the changed store. *)
Definition effect (s s' : Page number) : Prop :=
  (state s' = state s /\ calls s' = calls s /\ sameLists (world s) (world s'))
  \/ (exists ps' w0,
        storeChange s ps'
        /\ sameLists (world s) w0
        /\ s' = mkSys (mkState ps' (listeners (state s)))
                  (fst (callListeners 0 (listeners (state s)) ps' w0 []))
                  (calls s ++ snd (callListeners 0 (listeners (state s)) ps' w0 []))).

(** The pages of a session: the page's two listeners are registered, and
    the root elements of the lists have no [type] property. *)
Definition ordinary (s : Page number) : Prop :=
  listeners (state s) = pageListeners
  /\ forall t, element_type (getList t (world s)) = None.

End Sessions.

(** ** A sample session

    The user adds 'Website', drags it to the 'finished' list, and adds
    'Shop'. *)

Definition websiteProject : Project Double.number :=
  mkProject (js "0") (js "Website") (js "Build it") (Double.of_N 10) Finished.

Definition shopProject : Project Double.number :=
  mkProject (js "00") (js "Shop") (js "Sell it") (Double.of_N 45) Active.

Definition sampleSession : list Action :=
  [ TypeInto (js "Website") (js "Build it") (js "10");
    Fire TheInput submit (mkEvent None);
    Fire (TheList finished) drop
         (mkEvent (Some (mkDataTransfer [text_plain] [(text_plain, js "0")])));
    TypeInto (js "Shop") (js "Sell it") (js "45");
    Fire TheInput submit (mkEvent None) ].

(* ================================================================== *)
(** * Part II: properties                                              *)
(* ================================================================== *)

(** ** Strings *)

Lemma str_eqb_eq (a b : jsstring) : str_eqb a b = true <-> a = b.
Proof.
  revert b; induction a as [|x a IH]; intros [|y b]; simpl; split;
    try congruence; try reflexivity.
  - intros H. apply andb_true_iff in H as [Hx Hab].
    apply N.eqb_eq in Hx. apply IH in Hab. congruence.
  - intros H. injection H as -> ->.
    apply andb_true_iff. split; [apply N.eqb_refl | now apply IH].
Qed.

Lemma str_eqb_refl (a : jsstring) : str_eqb a a = true.
Proof. now apply str_eqb_eq. Qed.

Lemma str_eqb_neq (a b : jsstring) : str_eqb a b = false <-> a <> b.
Proof.
  split.
  - intros H E. apply str_eqb_eq in E. congruence.
  - intros H. destruct (str_eqb a b) eqn:E; [|reflexivity].
    apply str_eqb_eq in E. contradiction.
Qed.

Lemma status_eqb_eq (a b : ProjectStatus) : status_eqb a b = true <-> a = b.
Proof. destruct a, b; simpl; split; congruence. Qed.

(** ** The store *)

Section StoreFacts.
Context {number : Type} {W : Type}.
Implicit Types (s : Sys number W) (ps : list (Project number))
  (ls : list (Listener number W)) (log : list (Call number W)).

Lemma find_unknown_id ps (projectId : jsstring) :
  ~ In projectId (map id ps) ->
  find (fun prj => str_eqb (id prj) projectId) ps = None.
Proof.
  induction ps as [|p ps IH]; simpl; intros H; [reflexivity|].
  destruct (str_eqb (id p) projectId) eqn:E.
  - apply str_eqb_eq in E. exfalso. apply H. now left.
  - apply IH. intros Hin. apply H. now right.
Qed.

(** The log only grows, by one entry per listener. *)
Lemma callListeners_log i ls ps (w : W) log :
  snd (callListeners i ls ps w log) = log ++ snd (callListeners i ls ps w []).
Proof.
  revert i w log. induction ls as [|l ls IH]; intros i w log; simpl.
  - now rewrite app_nil_r.
  - destruct (l (slice ps) w) as [ps' w'].
    rewrite IH. rewrite (IH (S i) w' [_]). now rewrite app_assoc.
Qed.

Lemma callListeners_callee i ls ps (w : W) :
  map callee (snd (callListeners i ls ps w [])) = seq i (length ls).
Proof.
  revert i w. induction ls as [|l ls IH]; intros i w; simpl; [reflexivity|].
  destruct (l (slice ps) w) as [ps' w'].
  rewrite callListeners_log. simpl. now rewrite IH.
Qed.

Lemma callListeners_received i ls ps (w : W) :
  map received (snd (callListeners i ls ps w [])) = repeat ps (length ls).
Proof.
  revert i w. induction ls as [|l ls IH]; intros i w; simpl; [reflexivity|].
  destruct (l (slice ps) w) as [ps' w'].
  rewrite callListeners_log. simpl. now rewrite IH.
Qed.

(** A notification round returns, leaves the store as it was, and adds one
    entry per listener to the log. *)
Lemma updateListeners_round s :
  exists w' round,
    updateListeners s = Returns tt (mkSys (state s) w' (calls s ++ round))
    /\ map callee round = seq 0 (length (listeners (state s)))
    /\ map received round = repeat (projects (state s)) (length (listeners (state s))).
Proof.
  unfold updateListeners.
  destruct (callListeners 0 (listeners (state s)) (projects (state s)) (world s) (calls s))
    as [w' log'] eqn:E.
  exists w', (snd (callListeners 0 (listeners (state s)) (projects (state s)) (world s) [])).
  split; [|split].
  - f_equal. f_equal.
    change log' with (snd (w', log')). rewrite <- E. apply callListeners_log.
  - apply callListeners_callee.
  - apply callListeners_received.
Qed.

End StoreFacts.

(** ** What listeners see *)

Section ListenerFacts.
Context {number : Type} {W : Type}.
Variable P : W -> Prop.

Lemma callListeners_world i (ls : list (Listener number W)) ps (w : W) log :
  fst (callListeners i ls ps w log) = fst (callListeners i ls ps w []).
Proof.
  revert i w log. induction ls as [|l ls IH]; intros i w log; simpl; [reflexivity|].
  destruct (l (slice ps) w) as [ps' w'].
  rewrite (IH _ _ (log ++ _)), (IH _ _ [_]). reflexivity.
Qed.

(** A property of the page that every listener preserves holds of the page
    each listener sees, and of the page after the round. *)
Lemma callListeners_preserves (ls : list (Listener number W)) :
  Forall (fun l => forall ps w, P w -> P (snd (l ps w))) ls ->
  forall i ps w,
    P w ->
    P (fst (callListeners i ls ps w []))
    /\ Forall (fun c => P (seen c)) (snd (callListeners i ls ps w [])).
Proof.
  induction 1 as [|l ls Hl _ IH]; intros i ps w Hw; simpl.
  - split; [assumption | constructor].
  - specialize (Hl (slice ps) w Hw).
    destruct (l (slice ps) w) as [ps' w']. simpl in Hl.
    destruct (IH (S i) ps w' Hl) as [Hfst Hsnd]. split.
    + now rewrite callListeners_world.
    + rewrite callListeners_log. simpl. constructor; assumption.
Qed.

Lemma updateListeners_eq (s : Sys number W) :
  updateListeners s
  = Returns tt
      (mkSys (state s)
         (fst (callListeners 0 (listeners (state s)) (projects (state s)) (world s) []))
         (calls s
          ++ snd (callListeners 0 (listeners (state s)) (projects (state s)) (world s) []))).
Proof.
  unfold updateListeners.
  rewrite <- callListeners_log, <- (callListeners_world _ _ _ _ (calls s)).
  now destruct (callListeners _ _ _ _ _).
Qed.

Lemma callListeners_length i (ls : list (Listener number W)) ps (w : W) :
  length (snd (callListeners i ls ps w [])) = length ls.
Proof.
  rewrite <- (length_map callee), callListeners_callee. apply length_seq.
Qed.

End ListenerFacts.

(** The generator of the model never gives an id in use. *)
Lemma paddedId_fresh (number : Type) (ps : list (Project number)) :
  ~ In (paddedId ps) (map id ps).
Proof.
  intros H. apply in_map_iff in H as (p & E & Hin).
  assert (Hle : length (id p) <= list_max (map (fun prj => length (id prj)) ps)).
  { assert (F : Forall (fun k => k <= list_max (map (fun prj => length (id prj)) ps))
                  (map (fun prj => length (id prj)) ps))
      by (apply list_max_le; apply Nat.le_refl).
    rewrite Forall_forall in F. apply F.
    apply in_map_iff. now exists p. }
  rewrite E in Hle. unfold paddedId in Hle. rewrite repeat_length in Hle. lia.
Qed.

Lemma paddedId_avoids_listId (number : Type) (ps : list (Project number)) t :
  paddedId ps <> listId t.
Proof.
  intros H. apply (f_equal (fun l => hd 0%N l)) in H.
  destruct t; cbn in H; discriminate H.
Qed.

Section StoreCallFacts.
Context {number : Type} {W : Type} {Q : Protocol}.
Variable freshId : list (Project number) -> jsstring.
Implicit Types (s : Sys number W) (c : StoreCall number) (cs : list (StoreCall number)).










(** A change of status keeps every id, and its place. *)
Lemma setStatus_ids projectId newStatus (ps : list (Project number)) :
  map id (setStatus projectId newStatus ps) = map id ps.
Proof.
  induction ps as [|p ps IH]; simpl; [reflexivity|].
  destruct (str_eqb (id p) projectId); simpl; [reflexivity | now rewrite IH].
Qed.

(** The invariant of the data model: with a fresh id generator, ids stay
    unique within the store across every call. *)
Lemma ids_stay_unique c s :
  (forall ps, ~ In (freshId ps) (map id ps)) ->
  NoDup (map id (projects (state s))) ->
  NoDup (map id (projects (state (final (perform freshId c s))))).
Proof.
  intros fresh Hs. destruct c as [t d m | pid st]; simpl.
  - unfold addProject. rewrite updateListeners_eq. simpl.
    rewrite map_app. simpl.
    apply NoDup_rev in Hs. rewrite <- rev_involutive. apply NoDup_rev.
    rewrite rev_app_distr. simpl. constructor; [|assumption].
    rewrite <- in_rev. apply fresh.
  - unfold changeProjectState.
    destruct (find _ _) as [p|]; [|assumption].
    destruct (status_eqb (status p) st && negb notifiesUnchanged); [assumption|].
    rewrite updateListeners_eq. simpl. now rewrite setStatus_ids.
Qed.

(** C2: [addProject] returns with exactly one project appended at the end
    of the sequence; the new project is Active, carries the arguments as
    they were given and the id the store's generator made for it, which no
    project already in the store has; the projects that were there are
    unchanged, and so are the listeners, each of which was handed the
    extended sequence. *)
Theorem addProject_appends_one aTitle aDescription (aManday : number) s :
  exists newProject s' round,
    addProject paddedId aTitle aDescription aManday s = Returns tt s'
    /\ projects (state s') = projects (state s) ++ [newProject]
    /\ status newProject = Active
    /\ id newProject = paddedId (projects (state s))
    /\ ~ In (id newProject) (map id (projects (state s)))
    /\ title newProject = aTitle
    /\ description newProject = aDescription
    /\ manday newProject = aManday
    /\ listeners (state s') = listeners (state s)
    /\ calls s' = calls s ++ round
    /\ map callee round = seq 0 (length (listeners (state s)))
    /\ map received round
       = repeat (projects (state s) ++ [newProject]) (length (listeners (state s))).
Proof.
  unfold addProject.
  match goal with |- context [updateListeners ?x] =>
    destruct (updateListeners_round x) as (w' & round & E & Hc & Hr) end.
  simpl in *.
  eexists _, _, round. split; [exact E|]. simpl.
  repeat split; try reflexivity; try assumption.
  apply paddedId_fresh.
Qed.

(** C3: [changeProjectState] with an id that no project in the store has
    returns normally and leaves everything as it was: the sequence of
    projects (ids, statuses, order), the listeners, the page and the record
    of notifications. *)
Theorem changeProjectState_unknown_id projectId newStatus s :
  ~ In projectId (map id (projects (state s))) ->
  changeProjectState projectId newStatus s = Returns tt s.
Proof.
  intros H. unfold changeProjectState.
  now rewrite (find_unknown_id _ _ H).
Qed.

End StoreCallFacts.


(** ** The document *)

Section DocumentFacts.
Context {number : Type} {JN : JSNumber number}.
Implicit Types (w : World number) (t : ListType) (ps : list (Project number))
  (e : ItemElement) (es : list ItemElement) (x : jsstring).

(** Induction on an element, with the property known of its children. *)
Lemma ItemElement_nested_ind (P : ItemElement -> Prop) :
  (forall i c ch, Forall P ch -> P (mkElement i c ch)) -> forall e, P e.
Proof.
  intros H. fix IH 1. intros [i c ch]. apply H.
  induction ch as [|a r IHr]; constructor; [apply IH | exact IHr].
Qed.

Lemma onFirstOf_found {A} (g : A -> option A) (has : A -> bool) (l : list A) :
  Forall (fun a => has a = true -> exists a', g a = Some a') l ->
  existsb has l = true -> exists l', onFirstOf g l = Some l'.
Proof.
  induction 1 as [|a l Ha _ IH]; simpl; [discriminate|].
  destruct (g a) as [a'|] eqn:E; [eauto|].
  destruct (has a); simpl.
  - destruct (Ha eq_refl) as (a' & Ha'). discriminate Ha'.
  - intros H. destruct (IH H) as (l' & ->). simpl. eauto.
Qed.

Lemma onFirstOf_none {A} (g : A -> option A) (has : A -> bool) (l : list A) :
  Forall (fun a => has a = false -> g a = None) l ->
  existsb has l = false -> onFirstOf g l = None.
Proof.
  induction 1 as [|a l Ha _ IH]; simpl; [reflexivity|].
  intros H. apply orb_false_iff in H as [H1 H2].
  now rewrite (Ha H1), (IH H2).
Qed.

(** An element with the id is found exactly where there is one. *)
Lemma onFirst_found x f e : hasId x e = true -> exists e', onFirst x f e = Some e'.
Proof.
  induction e as [i c ch IH] using ItemElement_nested_ind. simpl.
  destruct (str_eqb i x); simpl; [eauto|].
  intros H. destruct (onFirstOf_found (onFirst x f) (hasId x) ch IH H) as (l' & ->).
  simpl. eauto.
Qed.

Lemma onFirst_none x f e : hasId x e = false -> onFirst x f e = None.
Proof.
  induction e as [i c ch IH] using ItemElement_nested_ind. simpl.
  destruct (str_eqb i x); simpl; [discriminate|].
  intros H. now rewrite (onFirstOf_none (onFirst x f) (hasId x) ch IH H).
Qed.

Lemma onFirstIn_found x f es :
  existsb (hasId x) es = true -> exists es', onFirstOf (onFirst x f) es = Some es'.
Proof.
  apply onFirstOf_found. apply Forall_forall. intros e _. apply onFirst_found.
Qed.

Lemma onFirstIn_none x f es :
  existsb (hasId x) es = false -> onFirstOf (onFirst x f) es = None.
Proof.
  apply onFirstOf_none. apply Forall_forall. intros e _. apply onFirst_none.
Qed.

(** Two changes of the element with the id, one after the other, are one
    change, as long as the first leaves the id alone: the second lookup
    finds the same element. *)
Lemma onFirstOf_twice {A} (g1 g2 g12 : A -> option A) (l l' : list A) :
  Forall (fun a => forall a', g1 a = Some a' -> g2 a' = g12 a /\ g12 a <> None) l ->
  Forall (fun a => g1 a = None -> g12 a = None /\ g2 a = None) l ->
  onFirstOf g1 l = Some l' -> onFirstOf g2 l' = onFirstOf g12 l.
Proof.
  intros H1 H2. revert l'.
  induction l as [|a l IH]; intros l'; simpl; [discriminate|].
  inversion H1 as [|? ? Ha H1']; subst. inversion H2 as [|? ? Hn H2']; subst.
  destruct (g1 a) as [a'|] eqn:E.
  - intros [= <-]. simpl. destruct (Ha a' eq_refl) as [-> Hsome].
    destruct (g12 a); [reflexivity | contradiction].
  - destruct (Hn eq_refl) as [-> Hg2].
    destruct (onFirstOf g1 l) as [l1|] eqn:E1; simpl; [|discriminate].
    intros [= <-]. simpl. rewrite Hg2. now rewrite (IH H1' H2' l1 eq_refl).
Qed.

Lemma onFirst_hasId x f e : onFirst x f e = None -> hasId x e = false.
Proof.
  intros H. destruct (hasId x e) eqn:E; [|reflexivity].
  destruct (onFirst_found x f e E) as (e' & He'). congruence.
Qed.

Lemma onFirst_some x f g e e' : onFirst x f e = Some e' -> onFirst x g e <> None.
Proof.
  intros H Hg. apply onFirst_hasId in Hg.
  rewrite (onFirst_none x f e Hg) in H. discriminate H.
Qed.

Lemma onFirst_twice x f g e e' :
  (forall a, item_id (f a) = item_id a) ->
  onFirst x f e = Some e' -> onFirst x g e' = onFirst x (fun a => g (f a)) e.
Proof.
  intros Hid. revert e'.
  induction e as [i c ch IH] using ItemElement_nested_ind. intros e'. simpl.
  destruct (str_eqb i x) eqn:Ei.
  - intros [= <-].
    assert (Hx : str_eqb (item_id (f (mkElement i c ch))) x = true)
      by (now rewrite Hid).
    destruct (f (mkElement i c ch)) as [i' c' ch']. simpl in *. now rewrite Hx.
  - destruct (onFirstOf (onFirst x f) ch) as [ch'|] eqn:E; simpl; [|discriminate].
    intros [= <-]. simpl. rewrite Ei. f_equal.
    apply (onFirstOf_twice (onFirst x f)); [ | | exact E].
    + eapply Forall_impl; [|exact IH]. intros a Ha a' Ha'.
      split; [now apply Ha | now apply (onFirst_some x f _ a a')].
    + apply Forall_forall. intros a _ Ha. apply onFirst_hasId in Ha.
      split; now apply onFirst_none.
Qed.

Lemma onFirstIn_twice x f g es es' :
  (forall a, item_id (f a) = item_id a) ->
  onFirstOf (onFirst x f) es = Some es' ->
  onFirstOf (onFirst x g) es' = onFirstOf (onFirst x (fun a => g (f a))) es.
Proof.
  intros Hid. apply onFirstOf_twice.
  - apply Forall_forall. intros a _ a' Ha'.
    split; [now apply onFirst_twice | now apply (onFirst_some x f _ a a')].
  - apply Forall_forall. intros a _ Ha. apply onFirst_hasId in Ha.
    split; now apply onFirst_none.
Qed.

Lemma onFirstIn_hasId x f es es' :
  onFirstOf (onFirst x f) es = Some es' ->
  (forall a, item_id (f a) = item_id a) ->
  existsb (hasId x) es' = true.
Proof.
  intros H Hid. destruct (existsb (hasId x) es') eqn:E; [reflexivity|].
  pose proof (onFirstIn_twice x f (fun a => a) es es' Hid H) as H2.
  rewrite (onFirstIn_none x _ es' E) in H2.
  destruct (existsb (hasId x) es) eqn:E'.
  - destruct (onFirstIn_found x (fun a => f a) es E') as (l & Hl). congruence.
  - rewrite (onFirstIn_none x f es E') in H. discriminate H.
Qed.

(** Changes that agree on every element change the same. *)
Lemma onFirst_ext x f g e : (forall a, f a = g a) -> onFirst x f e = onFirst x g e.
Proof.
  intros Hfg. induction e as [i c ch IH] using ItemElement_nested_ind. simpl.
  rewrite Hfg. destruct (str_eqb i x); [reflexivity|]. f_equal.
  induction IH as [|a l Ha _ IHl]; simpl; [reflexivity|].
  now rewrite Ha, IHl.
Qed.

Lemma onFirstIn_ext x f g es :
  (forall a, f a = g a) -> onFirstOf (onFirst x f) es = onFirstOf (onFirst x g) es.
Proof.
  intros Hfg. induction es as [|a l IH]; simpl; [reflexivity|].
  now rewrite (onFirst_ext x f g a Hfg), IH.
Qed.

(** *** Looking up the [ul] of a list *)

Lemma getElementById_active w : getElementById (listId active) w = Some (TheUl active).
Proof. reflexivity. Qed.

Lemma getElementById_finished w :
  getElementById (listId finished) w
  = if existsb (hasId (listId finished)) (ul_items (activeList w))
    then Some (Below active (listId finished))
    else Some (TheUl finished).
Proof. reflexivity. Qed.

Lemma setItems_same t w : setItems t (ul_items (getList t w)) w = w.
Proof. destruct w as [a b c d e [] []], t; reflexivity. Qed.

Lemma setItems_twice t its its' w : setItems t its' (setItems t its w) = setItems t its' w.
Proof. destruct t; reflexivity. Qed.

Lemma ul_items_setItems t its w : ul_items (getList t (setItems t its w)) = its.
Proof. destruct t; reflexivity. Qed.

(** *** Mounting the items *)

(** Items mounted in an element found as the [ul] of list [t] go to the
    end of that [ul], as long as the lookup keeps finding it. *)
Lemma mount_in_ul t ps : forall w,
  (forall its, getElementById (listId t) (setItems t its w) = Some (TheUl t)) ->
  fold_left (fun w prj => newProjectItem (listId t) prj w) ps w
  = setItems t (ul_items (getList t w) ++ map ProjectItem ps) w.
Proof.
  induction ps as [|p ps IH]; intros w Hw; simpl.
  - now rewrite app_nil_r, setItems_same.
  - assert (E : newProjectItem (listId t) p w
                = setItems t (ul_items (getList t w) ++ [ProjectItem p]) w).
    { unfold newProjectItem. rewrite <- (setItems_same t w) at 1. now rewrite Hw. }
    rewrite E, IH.
    + now rewrite setItems_twice, ul_items_setItems, <- app_assoc.
    + intros its. now rewrite setItems_twice.
Qed.

Lemma mounted_eq ps e :
  mounted ps e = mkElement (item_id e) (item_texts e) (item_children e ++ map ProjectItem ps).
Proof.
  unfold mounted. revert e. induction ps as [|p ps IH]; intros e; simpl.
  - rewrite app_nil_r. now destruct e.
  - rewrite IH. unfold appendChild. simpl. now rewrite <- app_assoc.
Qed.

(** Items mounted in an element found below the [ul] of the 'active' list
    under the id of the other [ul] go to the end of that element: every
    lookup finds it again. *)
Lemma mount_below ps : forall (f : ItemElement -> ItemElement) its w,
  (forall a, item_id (f a) = item_id a) ->
  onFirstOf (onFirst (listId finished) f) (ul_items (activeList w)) = Some its ->
  fold_left (fun w prj => newProjectItem (listId finished) prj w) ps (setItems active its w)
  = match onFirstOf (onFirst (listId finished) (fun a => mounted ps (f a)))
                    (ul_items (activeList w)) with
    | Some its' => setItems active its' w
    | None => w
    end.
Proof.
  induction ps as [|p ps IH]; intros f its w Hid Hits.
  - simpl. unfold mounted. simpl.
    rewrite (onFirstIn_ext _ (fun a => f a) f) by reflexivity. now rewrite Hits.
  - cbn [fold_left].
    destruct (onFirstIn_found (listId finished) (fun a => appendChild (ProjectItem p) (f a))
                (ul_items (activeList w))) as (its2 & Hits2).
    { destruct (existsb (hasId (listId finished)) (ul_items (activeList w))) eqn:E;
        [reflexivity|].
      rewrite (onFirstIn_none _ f _ E) in Hits. discriminate Hits. }
    assert (E : newProjectItem (listId finished) p (setItems active its w)
                = setItems active its2 w).
    { unfold newProjectItem. rewrite getElementById_finished.
      change (ul_items (activeList (setItems active its w))) with its.
      rewrite (onFirstIn_hasId _ f _ _ Hits Hid).
      cbn [updateElement getList].
      change (ul_items (activeList (setItems active its w))) with its.
      rewrite (onFirstIn_twice _ f _ _ _ Hid Hits), Hits2.
      apply (setItems_twice active). }
    rewrite E.
    rewrite (IH (fun a => appendChild (ProjectItem p) (f a)) its2 w); [reflexivity | | exact Hits2].
    intros a. cbn [appendChild item_id]. apply Hid.
Qed.

(** *** What a rendering leaves *)

Lemma renderProjects_active w :
  renderProjects active w
  = setItems active (map ProjectItem (assignedProjects (activeList w)))
             (countRender active w).
Proof.
  unfold renderProjects. cbv zeta. rewrite getElementById_active. cbn [handle_id].
  rewrite mount_in_ul by (intros; reflexivity).
  cbn [updateElement clearElement item_children].
  now rewrite setItems_twice, ul_items_setItems.
Qed.

Lemma renderProjects_finished w :
  renderProjects finished w
  = let its := map ProjectItem (assignedProjects (finishedList w)) in
    match onFirstOf (onFirst (listId finished) (filledWith its)) (ul_items (activeList w)) with
    | Some act => setItems active act (countRender finished w)
    | None => setItems finished its (countRender finished w)
    end.
Proof.
  unfold renderProjects. cbv zeta. rewrite getElementById_finished.
  change (ul_items (activeList (countRender finished w))) with (ul_items (activeList w)).
  change (assignedProjects (getList finished (countRender finished w)))
    with (assignedProjects (finishedList w)).
  set (ps := assignedProjects (finishedList w)).
  destruct (existsb (hasId (listId finished)) (ul_items (activeList w))) eqn:E.
  - cbn [handle_id updateElement getList].
    change (ul_items (activeList (countRender finished w))) with (ul_items (activeList w)).
    destruct (onFirstIn_found _ clearElement _ E) as (its & Hits). rewrite Hits.
    rewrite (mount_below ps clearElement its (countRender finished w)); [| reflexivity | exact Hits].
    change (ul_items (activeList (countRender finished w))) with (ul_items (activeList w)).
    rewrite (onFirstIn_ext _ (fun a => mounted ps (clearElement a))
                             (filledWith (map ProjectItem ps))).
    + destruct (onFirstIn_found _ (filledWith (map ProjectItem ps)) _ E) as (its' & ->).
      reflexivity.
    + intros a. now rewrite mounted_eq.
  - rewrite (onFirstIn_none _ _ _ E). cbn [handle_id].
    rewrite mount_in_ul.
    + cbn [updateElement clearElement item_children].
      now rewrite setItems_twice, ul_items_setItems.
    + intros its. rewrite getElementById_finished.
      cbn [updateElement clearElement item_children].
      change (ul_items (activeList (setItems finished its (setItems finished [] (countRender finished w)))))
        with (ul_items (activeList w)).
      now rewrite E.
Qed.

(** A rendering touches the [ul]s and the counter of the list, and nothing
    else of the page. *)
Lemma renderProjects_outside t w :
  titleInput (renderProjects t w) = titleInput w
  /\ descriptionInput (renderProjects t w) = descriptionInput w
  /\ mandayInput (renderProjects t w) = mandayInput w
  /\ alerts (renderProjects t w) = alerts w
  /\ defaultPrevented (renderProjects t w) = defaultPrevented w
  /\ forall t',
       assignedProjects (getList t' (renderProjects t w)) = assignedProjects (getList t' w)
       /\ element_type (getList t' (renderProjects t w)) = element_type (getList t' w)
       /\ ul_droppable (getList t' (renderProjects t w)) = ul_droppable (getList t' w)
       /\ renders (getList t' (renderProjects t w))
          = if ListType_eqb t t' then S (renders (getList t' w)) else renders (getList t' w).
Proof.
  destruct t.
  - rewrite renderProjects_active. repeat split; destruct t'; reflexivity.
  - rewrite renderProjects_finished. cbv zeta.
    destruct (onFirstOf _ _); repeat split; destruct t'; reflexivity.
Qed.

End DocumentFacts.

(** ** The page *)

Section PageFacts.
Context {number : Type} {JN : JSNumber number} {Q : Protocol}.
Variable freshId : list (Project number) -> jsstring.
Implicit Types (s : Page number) (w : World number) (t : ListType) (ev : Event)
  (ps : list (Project number)).

Lemma outcome_unit_eta (o : outcome number (World number) unit) :
  match o with
  | Returns _ s' => Returns tt s'
  | Throws e s' => Throws e s'
  end = o.
Proof. destruct o as [[] s'|e s']; reflexivity. Qed.

(** What reaches each handler: the three decorated ones run with the
    component as receiver, [dropHandler] with the root element. *)
Lemma dispatch_submit ev s :
  dispatchEvent freshId TheInput submit ev s
  = submitFunc freshId (ThisInstance TheInput) ev (onWorld (withPrevented false) s).
Proof.
  unfold dispatchEvent, bind, modifyWorld. simpl. unfold bind, invoke, ret. simpl.
  first [reflexivity | apply outcome_unit_eta].
Qed.

Lemma dispatch_dragover t ev s :
  dispatchEvent freshId (TheList t) dragover ev s
  = dragOverHandler (ThisInstance (TheList t)) ev (onWorld (withPrevented false) s).
Proof.
  unfold dispatchEvent, bind, modifyWorld. simpl. unfold bind, invoke, ret. simpl.
  first [reflexivity | apply outcome_unit_eta].
Qed.

Lemma dispatch_dragleave t ev s :
  dispatchEvent freshId (TheList t) dragleave ev s
  = dragLeaveHandler (ThisInstance (TheList t)) ev (onWorld (withPrevented false) s).
Proof.
  unfold dispatchEvent, bind, modifyWorld. simpl. unfold bind, invoke, ret. simpl.
  first [reflexivity | apply outcome_unit_eta].
Qed.

Lemma dispatch_drop t ev s :
  dispatchEvent freshId (TheList t) drop ev s
  = dropHandler (ThisElement (TheList t)) ev (onWorld (withPrevented false) s).
Proof.
  unfold dispatchEvent, bind, modifyWorld. simpl. unfold bind, invoke, ret. simpl.
  first [reflexivity | apply outcome_unit_eta].
Qed.

(** *** The form *)

Lemma gatherInputs_rejects s :
  Validation.validate (textCheck (titleInput (world s))) = false
  \/ Validation.validate (textCheck (descriptionInput (world s))) = false
  \/ Validation.validate (mandayCheck (mandayInput (world s))) = false ->
  gatherInputs s = Returns None (onWorld (withAlert alert_message) s).
Proof.
  intros H. unfold gatherInputs, bind, getWorld, textCheck, mandayCheck in *.
  destruct H as [H | [H | H]]; rewrite H; simpl;
    rewrite ?orb_true_r; reflexivity.
Qed.

Lemma gatherInputs_accepts s :
  Validation.validate (textCheck (titleInput (world s))) = true ->
  Validation.validate (textCheck (descriptionInput (world s))) = true ->
  Validation.validate (mandayCheck (mandayInput (world s))) = true ->
  gatherInputs s
  = Returns (Some (titleInput (world s), descriptionInput (world s),
                   ToNumber (mandayInput (world s)))) s.
Proof.
  intros H1 H2 H3. unfold gatherInputs, bind, getWorld, textCheck, mandayCheck in *.
  rewrite H1, H2, H3. reflexivity.
Qed.

(** An accepted submission is one call of [addProject], made on the page
    whose inputs have been cleared. *)
Lemma submit_accepted_eq ev s :
  Validation.validate (textCheck (titleInput (world s))) = true ->
  Validation.validate (textCheck (descriptionInput (world s))) = true ->
  Validation.validate (mandayCheck (mandayInput (world s))) = true ->
  dispatchEvent freshId TheInput submit ev s
  = addProject freshId (titleInput (world s)) (descriptionInput (world s))
      (ToNumber (mandayInput (world s)))
      (onWorld (fun w => withInputs [] [] [] (withPrevented true w)) s).
Proof.
  intros H1 H2 H3. rewrite dispatch_submit.
  unfold submitFunc, bind at 1. simpl.
  unfold bind at 1.
  rewrite gatherInputs_accepts by assumption. simpl.
  reflexivity.
Qed.

(** C5: when one of the three inputs fails its check, the submission
    returns having shown one alert (the alerts so far, then this one); the
    store is as it was, no listener was invoked, and the three inputs keep
    their text. *)
Theorem submit_rejected ev s :
  Validation.validate (textCheck (titleInput (world s))) = false
  \/ Validation.validate (textCheck (descriptionInput (world s))) = false
  \/ Validation.validate (mandayCheck (mandayInput (world s))) = false ->
  exists s',
    dispatchEvent freshId TheInput submit ev s = Returns tt s'
    /\ alerts (world s') = alerts (world s) ++ [alert_message]
    /\ state s' = state s
    /\ calls s' = calls s
    /\ titleInput (world s') = titleInput (world s)
    /\ descriptionInput (world s') = descriptionInput (world s)
    /\ mandayInput (world s') = mandayInput (world s)
    /\ activeList (world s') = activeList (world s)
    /\ finishedList (world s') = finishedList (world s).
Proof.
  intros H. rewrite dispatch_submit.
  unfold submitFunc, bind at 1. simpl. unfold bind at 1.
  rewrite gatherInputs_rejects by exact H. simpl.
  eexists. split; [reflexivity|]. simpl. repeat split.
Qed.

(** C6: when the three inputs pass their checks, the submission is exactly
    one call of [addProject], with the text of the title input, the text of
    the description input and the numeric conversion of the text of the
    manday input; the store gains that one project. *)
Theorem submit_accepted ev s :
  Validation.validate (textCheck (titleInput (world s))) = true ->
  Validation.validate (textCheck (descriptionInput (world s))) = true ->
  Validation.validate (mandayCheck (mandayInput (world s))) = true ->
  let o := dispatchEvent freshId TheInput submit ev s in
  (exists s1,
      state s1 = state s /\ calls s1 = calls s
      /\ o = addProject freshId (titleInput (world s)) (descriptionInput (world s))
               (ToNumber (mandayInput (world s))) s1)
  /\ returned o = true
  /\ exists newProject,
      projects (state (final o)) = projects (state s) ++ [newProject]
      /\ title newProject = titleInput (world s)
      /\ description newProject = descriptionInput (world s)
      /\ manday newProject = ToNumber (mandayInput (world s))
      /\ status newProject = Active.
Proof.
  intros H1 H2 H3 o. subst o. rewrite (submit_accepted_eq ev s H1 H2 H3).
  split.
  { exists (onWorld (fun w => withInputs [] [] [] (withPrevented true w)) s).
    repeat split. }
  unfold addProject. rewrite updateListeners_eq. simpl.
  split; [reflexivity|]. eexists. split; [reflexivity|]. simpl. repeat split.
Qed.

Lemma projectListListener_inputs t ps w :
  inputsCleared w -> inputsCleared (snd (projectListListener t ps w)).
Proof.
  intros H. unfold projectListListener. cbn [snd].
  destruct (renderProjects_outside t (setAssigned t
              (filter (fun prj =>
                         if str_eqb (type_string t) lit_active
                         then status_eqb (status prj) Active
                         else status_eqb (status prj) Finished) ps) w))
    as (Ht & Hd & Hm & _).
  unfold inputsCleared. rewrite Ht, Hd, Hm. now destruct t.
Qed.

(** C10: when the three inputs pass their checks, the submission clears the
    three inputs and only then calls [addProject]: the call is made on a
    page whose inputs are empty, every listener the lists registered sees
    them empty when it is notified, and they are empty when the submission
    returns. *)
Theorem inputs_cleared_before_addProject ev s :
  Validation.validate (textCheck (titleInput (world s))) = true ->
  Validation.validate (textCheck (descriptionInput (world s))) = true ->
  Validation.validate (mandayCheck (mandayInput (world s))) = true ->
  Forall (fun l => exists t, l = projectListListener t) (listeners (state s)) ->
  let o := dispatchEvent freshId TheInput submit ev s in
  exists s1 round,
    inputsCleared (world s1)
    /\ o = addProject freshId (titleInput (world s)) (descriptionInput (world s))
             (ToNumber (mandayInput (world s))) s1
    /\ calls (final o) = calls s ++ round
    /\ length round = length (listeners (state s))
    /\ Forall (fun c => inputsCleared (seen c)) round
    /\ inputsCleared (world (final o)).
Proof.
  intros H1 H2 H3 Hls o. subst o. rewrite (submit_accepted_eq ev s H1 H2 H3).
  exists (onWorld (fun w => withInputs [] [] [] (withPrevented true w)) s).
  eexists. split; [|split; [reflexivity|]].
  - repeat split.
  - unfold addProject. rewrite updateListeners_eq. simpl.
    match goal with |- context [callListeners 0 ?ls ?qs ?w0 []] =>
      assert (Hpres : Forall (fun l => forall ps w,
                         inputsCleared w -> inputsCleared (snd (l ps w))) ls)
        by (eapply Forall_impl; [|exact Hls]; intros l [t ->] ps w;
            apply projectListListener_inputs);
      assert (H0 : inputsCleared w0) by (repeat split);
      destruct (callListeners_preserves inputsCleared ls Hpres 0 qs w0 H0)
        as [Hfst Hsnd] end.
    split; [reflexivity|]. split; [apply callListeners_length|].
    split; assumption.
Qed.

(** *** The lists *)

Lemma type_is_active t :
  str_eqb (type_string t) lit_active
  = match t with active => true | finished => false end.
Proof. destruct t; reflexivity. Qed.

Lemma getList_setList t (l : ProjectList number) w : getList t (setList t l w) = l.
Proof. destruct t; reflexivity. Qed.

Lemma appended_items (A B : Type) (f : A -> B) (l : list A) (acc : list B) :
  fold_left (fun li prj => li ++ [f prj]) l acc = acc ++ map f l.
Proof.
  revert acc. induction l as [|x l IH]; intros acc; simpl.
  - now rewrite app_nil_r.
  - rewrite IH. now rewrite <- app_assoc.
Qed.

Lemma filter_status_split ps :
  Permutation
    (filter (fun prj => status_eqb (status prj) Active) ps
     ++ filter (fun prj => status_eqb (status prj) Finished) ps)
    ps.
Proof.
  induction ps as [|p ps IH]; simpl; [constructor|].
  destruct (status p); simpl.
  - now constructor.
  - apply Permutation_sym, Permutation_cons_app, Permutation_sym, IH.
Qed.

(** The view a listener computes is the view of the list's status. *)
Lemma listener_filter t ps :
  filter (fun prj =>
            if str_eqb (type_string t) lit_active then status_eqb (status prj) Active
            else status_eqb (status prj) Finished) ps
  = filter (fun prj => status_eqb (status prj) (bucketStatus t)) ps.
Proof. destruct t; reflexivity. Qed.

(** What the listener of a list leaves of the page outside the [ul]s. *)
Lemma listener_outside t ps w :
  let w' := snd (projectListListener t ps w) in
  titleInput w' = titleInput w
  /\ descriptionInput w' = descriptionInput w
  /\ mandayInput w' = mandayInput w
  /\ alerts w' = alerts w
  /\ defaultPrevented w' = defaultPrevented w
  /\ forall t',
       assignedProjects (getList t' w')
       = (if ListType_eqb t t'
          then filter (fun prj => status_eqb (status prj) (bucketStatus t)) ps
          else assignedProjects (getList t' w))
       /\ element_type (getList t' w') = element_type (getList t' w)
       /\ ul_droppable (getList t' w') = ul_droppable (getList t' w)
       /\ renders (getList t' w')
          = if ListType_eqb t t' then S (renders (getList t' w)) else renders (getList t' w).
Proof.
  unfold projectListListener. cbn [snd]. rewrite listener_filter.
  match goal with |- context [renderProjects t ?x] =>
    destruct (renderProjects_outside t x) as (Ht & Hd & Hm & Ha & Hp & H) end.
  cbv zeta. rewrite Ht, Hd, Hm, Ha, Hp.
  repeat split; try (now destruct t);
    destruct (H t') as (E1 & E2 & E3 & E4); rewrite ?E1, ?E2, ?E3, ?E4;
    destruct t, t'; reflexivity.
Qed.

(** What the listener of a list leaves in the [ul]s. *)
Lemma listener_items_active ps w :
  let w' := snd (projectListListener active ps w) in
  ul_items (activeList w')
  = map ProjectItem (filter (fun prj => status_eqb (status prj) Active) ps)
  /\ ul_items (finishedList w') = ul_items (finishedList w).
Proof.
  unfold projectListListener. cbn [snd].
  rewrite renderProjects_active. split; reflexivity.
Qed.

Lemma listener_items_finished ps w :
  let w' := snd (projectListListener finished ps w) in
  let items := map ProjectItem (filter (fun prj => status_eqb (status prj) Finished) ps) in
  match onFirstOf (onFirst (listId finished) (filledWith items)) (ul_items (activeList w)) with
  | None =>
      ul_items (finishedList w') = items
      /\ ul_items (activeList w') = ul_items (activeList w)
  | Some elements =>
      ul_items (activeList w') = elements
      /\ ul_items (finishedList w') = ul_items (finishedList w)
  end.
Proof.
  unfold projectListListener. cbn [snd].
  rewrite renderProjects_finished. cbv zeta.
  change (assignedProjects (finishedList (setAssigned finished ?v w))) with v.
  change (ul_items (activeList (setAssigned finished ?v w))) with (ul_items (activeList w)).
  change (if str_eqb (type_string finished) lit_active then ?a else ?b) with b.
  destruct (onFirstOf _ _); split; reflexivity.
Qed.

(** Items of projects that do not have an id hold no element with it. *)
Lemma items_without_id x ps :
  Forall (fun prj => id prj <> x) ps ->
  existsb (hasId x) (map ProjectItem ps) = false.
Proof.
  induction 1 as [|p ps Hp _ IH]; [reflexivity|].
  cbn [map existsb]. rewrite IH.
  cbn [ProjectItem mkItem hasId existsb].
  apply str_eqb_neq in Hp. now rewrite Hp.
Qed.

(** C7: the listener of a list leaves the array it receives alone,
    replaces the list's cached view by the projects of that array whose
    status is the list's, in the array's order, and renders them: one more
    rendering has run, and the element the document finds under the id of
    the list's [ul] is emptied and holds one item per cached project, in
    order.  For the 'active' list that element is its [ul].  For the
    'finished' list it is its [ul] unless an element below the [ul] of the
    'active' list has the id 'finished-projects-list': then the first such
    element is emptied and filled, and the [ul] of the 'finished' list is
    left as it was.  After the two lists have been notified of the same
    array, their views partition it: together they are a rearrangement of
    it, and every project of it is in exactly one of them. *)
Theorem projectListListener_view t ps w :
  let w' := snd (projectListListener t ps w) in
  let items := map ProjectItem (assignedProjects (getList t w')) in
  fst (projectListListener t ps w) = ps
  /\ assignedProjects (getList t w')
     = filter (fun prj => status_eqb (status prj) (bucketStatus t)) ps
  /\ renders (getList t w') = S (renders (getList t w))
  /\ (t = active ->
        ul_items (activeList w') = items
        /\ ul_items (finishedList w') = ul_items (finishedList w))
  /\ (t = finished ->
        match onFirstOf (onFirst (listId finished) (filledWith items))
                        (ul_items (activeList w)) with
        | None =>
            ul_items (finishedList w') = items
            /\ ul_items (activeList w') = ul_items (activeList w)
        | Some elements =>
            ul_items (activeList w') = elements
            /\ ul_items (finishedList w') = ul_items (finishedList w)
        end)
  /\ (existsb (hasId (listId finished)) (ul_items (activeList w)) = false ->
        ul_items (getList t w') = items)
  /\ (let both :=
        snd (projectListListener finished ps (snd (projectListListener active ps w))) in
      let shownActive := assignedProjects (activeList both) in
      let shownFinished := assignedProjects (finishedList both) in
      Permutation (shownActive ++ shownFinished) ps
      /\ forall prj, In prj ps ->
           (In prj shownActive /\ ~ In prj shownFinished)
           \/ (In prj shownFinished /\ ~ In prj shownActive)).
Proof.
  intros w' items.
  assert (Hview : forall t0 w0,
            assignedProjects (getList t0 (snd (projectListListener t0 ps w0)))
            = filter (fun prj => status_eqb (status prj) (bucketStatus t0)) ps).
  { intros t0 w0. unfold projectListListener. cbn [snd]. rewrite listener_filter.
    destruct (renderProjects_outside t0
                (setAssigned t0 (filter (fun prj => status_eqb (status prj) (bucketStatus t0)) ps) w0))
      as (_ & _ & _ & _ & _ & H).
    destruct (H t0) as (-> & _). now destruct t0. }
  assert (Hother : assignedProjects
                     (activeList (snd (projectListListener finished ps
                                         (snd (projectListListener active ps w)))))
                   = filter (fun prj => status_eqb (status prj) Active) ps).
  { pose proof (Hview active w) as Ha. cbn [bucketStatus getList] in Ha.
    rewrite <- Ha. unfold projectListListener at 1. cbn [snd].
    match goal with |- context [renderProjects finished ?x] =>
      destruct (renderProjects_outside finished x) as (_ & _ & _ & _ & _ & H) end.
    destruct (H active) as (E & _). cbn [getList] in *. rewrite E. reflexivity. }
  split; [reflexivity|]. split; [apply Hview|].
  split.
  { unfold w', projectListListener. cbn [snd].
    match goal with |- context [renderProjects t ?x] =>
      destruct (renderProjects_outside t x) as (_ & _ & _ & _ & _ & H) end.
    destruct (H t) as (_ & _ & _ & ->). now destruct t. }
  assert (Hitems : items = map ProjectItem
                     (filter (fun prj => status_eqb (status prj) (bucketStatus t)) ps))
    by (unfold items, w'; now rewrite Hview).
  assert (Hfin : t = finished ->
            match onFirstOf (onFirst (listId finished) (filledWith items))
                            (ul_items (activeList w)) with
            | None =>
                ul_items (finishedList w') = items
                /\ ul_items (activeList w') = ul_items (activeList w)
            | Some elements =>
                ul_items (activeList w') = elements
                /\ ul_items (finishedList w') = ul_items (finishedList w)
            end).
  { intros ->. rewrite Hitems. unfold w', projectListListener. cbn [snd].
    rewrite listener_filter, renderProjects_finished. cbv zeta.
    change (assignedProjects (finishedList (setAssigned finished ?v w))) with v.
    change (ul_items (activeList (setAssigned finished ?v w))) with (ul_items (activeList w)).
    destruct (onFirstOf _ _); split; reflexivity. }
  assert (Hact : t = active ->
            ul_items (activeList w') = items
            /\ ul_items (finishedList w') = ul_items (finishedList w)).
  { intros ->. rewrite Hitems. unfold w', projectListListener. cbn [snd].
    rewrite listener_filter, renderProjects_active. split; reflexivity. }
  split; [exact Hact|]. split; [exact Hfin|]. split.
  { intros Hnone. destruct t.
    - now destruct Hact.
    - specialize (Hfin eq_refl). rewrite (onFirstIn_none _ _ _ Hnone) in Hfin.
      now destruct Hfin. }
  cbv zeta. rewrite Hother.
  change (finishedList ?x) with (getList finished x). rewrite Hview. cbn [bucketStatus].
  split.
  - apply filter_status_split.
  - intros prj Hin. rewrite !filter_In.
    destruct (status prj) eqn:E; simpl; [left | right];
      (split; [now split | intros [_ H]; discriminate H]).
Qed.

(** *** Drag and drop *)

(** What [dropHandler] asks of the store when the browser calls it: the
    status is decided by the [type] property of the root element, not by
    the [type] of the list. *)
Lemma dropHandler_on_element t dt s :
  dispatchEvent freshId (TheList t) drop (mkEvent (Some dt)) s
  = changeProjectState (getData dt text_plain)
      (if strict_eq_str (element_type (getList t (world s))) lit_active
       then Active else Finished)
      (onWorld (withPrevented false) s).
Proof.
  rewrite dispatch_drop. unfold dropHandler, bind, getWorld. simpl.
  destruct t; reflexivity.
Qed.

(** With a root element that has no [type] property, a drop asks for
    Finished on either list. *)
Lemma drop_asks_for_Finished t dt s :
  element_type (getList t (world s)) = None ->
  dispatchEvent freshId (TheList t) drop (mkEvent (Some dt)) s
  = changeProjectState (getData dt text_plain) Finished
      (onWorld (withPrevented false) s).
Proof. intros H. now rewrite dropHandler_on_element, H. Qed.

(** What the handler would ask if it ran with the list as receiver. *)
Lemma dropHandler_on_instance t dt s :
  dropHandler (ThisInstance (TheList t)) (mkEvent (Some dt)) s
  = changeProjectState (getData dt text_plain) (bucketStatus t) s.
Proof.
  unfold dropHandler, bind, getWorld. simpl. rewrite type_is_active.
  destruct t; reflexivity.
Qed.

(** C9 (as amended): a drag-over is accepted (its default is prevented)
    exactly when the event has a payload whose first declared type is
    'text/plain'; then the [ul] of the list is marked droppable, otherwise
    the page is left alone.  The store is not touched, and the outcome
    depends on nothing of the event but the declared types. *)
Theorem dragOver_accepts_first_type t ev s :
  let o := dispatchEvent freshId (TheList t) dragover ev s in
  let firstIsPlainText (e : Event) :=
    exists dt, dataTransfer e = Some dt /\ nth_error (types dt) 0 = Some text_plain in
  returned o = true
  /\ state (final o) = state s
  /\ calls (final o) = calls s
  /\ (defaultPrevented (world (final o)) = true <-> firstIsPlainText ev)
  /\ (firstIsPlainText ev ->
      world (final o) = setDroppable t true (withPrevented true (world s)))
  /\ (~ firstIsPlainText ev -> world (final o) = withPrevented false (world s))
  /\ (forall ev',
        option_map types (dataTransfer ev') = option_map types (dataTransfer ev) ->
        dispatchEvent freshId (TheList t) dragover ev' s = o).
Proof.
  intros o firstIsPlainText. subst o firstIsPlainText.
  rewrite dispatch_dragover. unfold dragOverHandler.
  assert (Hlast : forall ev',
    option_map types (dataTransfer ev') = option_map types (dataTransfer ev) ->
    dispatchEvent freshId (TheList t) dragover ev' s
    = dragOverHandler (ThisInstance (TheList t)) ev (onWorld (withPrevented false) s)).
  { intros ev' H. rewrite dispatch_dragover. unfold dragOverHandler.
    destruct (dataTransfer ev') as [dt'|], (dataTransfer ev) as [dt|];
      try discriminate H; [|reflexivity].
    simpl in H. injection H as ->. reflexivity. }
  unfold dragOverHandler in Hlast.
  destruct (dataTransfer ev) as [dt|] eqn:Edt.
  - destruct (types dt) as [|ty tys] eqn:Ety; simpl in *.
    + repeat split; try reflexivity; try discriminate.
      * intros (dt' & [= <-] & H). rewrite Ety in H. discriminate H.
      * intros (dt' & [= <-] & H). rewrite Ety in H. discriminate H.
      * exact Hlast.
    + destruct (str_eqb ty text_plain) eqn:E.
      * apply str_eqb_eq in E. subst ty.
        unfold bind, preventDefault, modifyWorld. simpl.
        repeat split;
          first [ reflexivity
                | exact Hlast
                | intros _; exists dt; rewrite Ety; now split
                | intros; destruct t; reflexivity
                | intros H; exfalso; apply H; exists dt; rewrite Ety; now split ].
      * apply str_eqb_neq in E. simpl.
        repeat split; try reflexivity; try discriminate.
        -- intros (dt' & [= <-] & H). rewrite Ety in H. simpl in H. congruence.
        -- intros (dt' & [= <-] & H). rewrite Ety in H. simpl in H. congruence.
        -- exact Hlast.
  - simpl. repeat split; try reflexivity; try discriminate.
    + intros (dt' & H & _). discriminate H.
    + intros (dt' & H & _). discriminate H.
    + exact Hlast.
Qed.

End PageFacts.

(** ** The effort text *)

(** A check that holds of every number up to a bound holds of each. *)
Lemma allUpTo_each (f : N -> bool) (bound : N) :
  allUpTo f bound = true -> forall m, (m <= bound)%N -> f m = true.
Proof.
  unfold allUpTo. induction bound as [|b IH] using N.peano_ind.
  - rewrite N.peano_rect_base. intros H m Hm.
    assert (m = 0%N) by lia. now subst m.
  - rewrite N.peano_rect_succ. intros H m Hm.
    apply andb_true_iff in H as [Hb Hs].
    destruct (N.eq_dec m (N.succ b)) as [-> | Hne]; [exact Hs|].
    apply IH; [exact Hb | lia].
Qed.

(** C4 (as amended): the effort text of a project is the text of its
    manday followed by '人日' when the manday is below 20, and the text of
    the manday divided by 20 followed by '人月' otherwise, with nothing
    between the number and the suffix.  The numbers are doubles and the
    text is that of [toString].  For every whole number of person-days up
    to 2000 the quotient is printed as its integer part and its
    twentieths: 5 gives '5人日', 20 gives '1人月', 45 gives '2.25人月'.
    The division is that of doubles, not an exact one: 20.1 gives
    '1.0050000000000001人月', 9007199254740991 gives
    '450359962737049.56人月', and 2e22 gives '1e+21人月'. *)
Theorem effort_text :
  (forall (number : Type) (JN : JSNumber number) (project : Project number),
      ProjectItem_manday project
      = if num_lt (manday project) (num_of_N 20)
        then num_toString (manday project) ++ suffix_days
        else num_toString (num_div (manday project) (num_of_N 20)) ++ suffix_months)
  /\ (forall m : N,
        (m <= 2000)%N ->
        ProjectItem_manday (effort m)
        = if N.ltb m 20 then Double.digits_of_N m ++ suffix_days
          else Double.digits_of_N (m / 20) ++ twentieths (m mod 20) ++ suffix_months)
  /\ ProjectItem_manday (effort 5) = js "5" ++ suffix_days
  /\ ProjectItem_manday (effort 20) = js "1" ++ suffix_months
  /\ ProjectItem_manday (effort 45) = js "2.25" ++ suffix_months
  /\ ProjectItem_manday (effortTyped "20.1") = js "1.0050000000000001" ++ suffix_months
  /\ ProjectItem_manday (effortTyped "9007199254740991")
     = js "450359962737049.56" ++ suffix_months
  /\ ProjectItem_manday (effortTyped "2e22") = js "1e+21" ++ suffix_months.
Proof.
  split; [reflexivity|]. split; [|repeat split; vm_compute; reflexivity].
  intros m Hm. apply str_eqb_eq. revert m Hm.
  apply (allUpTo_each
           (fun m =>
              str_eqb (ProjectItem_manday (effort m))
                      (if N.ltb m 20 then Double.digits_of_N m ++ suffix_days
                       else Double.digits_of_N (m / 20) ++ twentieths (m mod 20)
                            ++ suffix_months))).
  vm_compute. reflexivity.
Qed.

(** The text for 5 person-days is not the English '5 person-days'. *)
Lemma effort_text_not_english :
  ProjectItem_manday (effort 5) <> js "5 person-days".
Proof. vm_compute. discriminate. Qed.

(** ** The sample session *)

Section SampleFacts.
#[local] Existing Instance asReported.

Lemma samplePage_unknown_id :
  ~ In (js "0.5") (map id (projects (state samplePage))).
Proof. vm_compute. intros [H|[H|[]]]; discriminate H. Qed.

(** *** Instances on the sample session *)


Lemma changeProjectState_unknown_id_witness :
  ~ In (js "0.5") (map id (projects (state samplePage)))
  /\ changeProjectState (js "0.5") Finished samplePage = Returns tt samplePage.
Proof.
  split; [exact samplePage_unknown_id|].
  apply changeProjectState_unknown_id. exact samplePage_unknown_id.
Defined.

Lemma submit_rejected_witness :
  exists s',
    dispatchEvent paddedId TheInput submit (mkEvent None) rejectedPage = Returns tt s'
    /\ alerts (world s') = alerts (world rejectedPage) ++ [alert_message]
    /\ state s' = state rejectedPage
    /\ calls s' = calls rejectedPage
    /\ titleInput (world s') = titleInput (world rejectedPage)
    /\ descriptionInput (world s') = descriptionInput (world rejectedPage)
    /\ mandayInput (world s') = mandayInput (world rejectedPage)
    /\ activeList (world s') = activeList (world rejectedPage)
    /\ finishedList (world s') = finishedList (world rejectedPage).
Proof.
  apply (submit_rejected paddedId (mkEvent None) rejectedPage).
  right. right. vm_compute. reflexivity.
Defined.

Lemma submit_accepted_witness :
  exists newProject,
    projects (state (final (dispatchEvent paddedId TheInput submit (mkEvent None)
                              acceptedPage)))
    = projects (state acceptedPage) ++ [newProject]
    /\ title newProject = titleInput (world acceptedPage)
    /\ description newProject = descriptionInput (world acceptedPage)
    /\ manday newProject = ToNumber (mandayInput (world acceptedPage))
    /\ status newProject = Active.
Proof.
  apply (submit_accepted paddedId (mkEvent None) acceptedPage);
    vm_compute; reflexivity.
Defined.

Lemma inputs_cleared_before_addProject_witness :
  exists round,
    calls (final (dispatchEvent paddedId TheInput submit (mkEvent None) acceptedPage))
    = calls acceptedPage ++ round
    /\ length round = length (listeners (state acceptedPage))
    /\ Forall (fun c => inputsCleared (seen c)) round
    /\ inputsCleared
         (world (final (dispatchEvent paddedId TheInput submit (mkEvent None)
                          acceptedPage))).
Proof.
  destruct (inputs_cleared_before_addProject paddedId (mkEvent None) acceptedPage)
    as (s1 & round & _ & _ & H).
  - vm_compute; reflexivity.
  - vm_compute; reflexivity.
  - vm_compute; reflexivity.
  - change (listeners (state acceptedPage))
      with [projectListListener (number := Double.number) active;
            projectListListener finished].
    repeat constructor; eexists; reflexivity.
  - exists round. exact H.
Defined.

(** ** Dropping on the 'active' list *)

(** C8, on the sample session: the first project is Finished; a drag of it
    dropped on the 'active' list reaches [dropHandler] with the root
    element as receiver, so the store is asked for Finished, not Active,
    and the project stays Finished.  Asking for Active would have moved
    it. *)
Theorem drop_on_active_list_asks_for_Finished :
  let dragged := nth 0 (projects (state samplePage)) (effort 0) in
  let o := dispatchEvent paddedId (TheList active) drop
             (mkEvent (Some (dragStartHandler dragged))) samplePage in
  status dragged = Finished
  /\ o = changeProjectState (id dragged) Finished
           (onWorld (withPrevented false) samplePage)
  /\ map status (projects (state (final o))) = [Finished; Active]
  /\ map status (projects (state (final
           (changeProjectState (id dragged) Active samplePage))))
     = [Active; Active].
Proof.
  intros dragged o. subst o.
  assert (Hty : element_type (getList active (world samplePage)) = None)
    by (vm_compute; reflexivity).
  rewrite dropHandler_on_element, Hty.
  split; [vm_compute; reflexivity|].
  split; [reflexivity|].
  split; vm_compute; reflexivity.
Qed.

(** ** A payload that declares 'text/plain' second *)

(** The payload declares 'text/plain', yet the drag-over is not accepted. *)
Lemma declared_second_is_not_accepted :
  let o := dispatchEvent paddedId (TheList active) dragover
             (mkEvent (Some htmlFirst)) samplePage in
  ~ (defaultPrevented (world (final o)) = true <-> In text_plain (types htmlFirst)).
Proof.
  intros o [_ H].
  assert (Hin : In text_plain (types htmlFirst)) by (right; left; reflexivity).
  apply H in Hin. vm_compute in Hin. discriminate Hin.
Qed.

(** ** The session end to end

    The form is submitted with 'Website', 'Build it' and '10' on the fresh
    page: the 'active' list shows one item, with the effort text '10人日'.
    Its drag is dropped on the 'finished' list: the item leaves the
    'active' list and appears in the 'finished' one. *)
Example end_to_end :
  let fresh := onWorld (withInputs (js "Website") (js "Build it") (js "10")) startedPage in
  let added := final (dispatchEvent paddedId TheInput submit (mkEvent None) fresh) in
  let item := mkItem (js "0") (js "Website") (js "10" ++ suffix_days) (js "Build it") in
  let payload := dragStartHandler (nth 0 (projects (state added)) (effort 0)) in
  let moved :=
    final (dispatchEvent paddedId (TheList finished) drop (mkEvent (Some payload)) added) in
  ul_items (activeList (world added)) = [item]
  /\ ul_items (finishedList (world added)) = []
  /\ ul_items (activeList (world moved)) = []
  /\ ul_items (finishedList (world moved)) = [item].
Proof. vm_compute. repeat split. Qed.

(** ** An item with the id of the second [ul]

    The store holds an Active project whose id is 'finished-projects-list'
    and a Finished one.  After a notification round the 'finished' list
    caches the Finished project, but its [ul] is empty: the lookup by id
    found the item of the Active project, which lost its texts and holds
    the item of the Finished project. *)
Example item_with_the_id_of_a_list :
  let borrowed := mkProject (listId finished) (js "Plan") (js "Draw it") (Double.of_N 3) Active in
  let w := deliver pageListeners [borrowed; websiteProject] emptyWorld in
  assignedProjects (activeList w) = [borrowed]
  /\ assignedProjects (finishedList w) = [websiteProject]
  /\ ul_items (finishedList w) = []
  /\ ul_items (activeList w)
     = [mkElement (listId finished) None [ProjectItem websiteProject]].
Proof. vm_compute. repeat split. Qed.

End SampleFacts.

(* ================================================================== *)
(** * Part III: sessions                                               *)
(* ================================================================== *)

(** ** The payload of a drag *)

Lemma find_appended_item (format data : jsstring) (its : list (jsstring * jsstring)) :
  find (fun kv => str_eqb (fst kv) format)
       (filter (fun kv => negb (str_eqb (fst kv) format)) its ++ [(format, data)])
  = Some (format, data).
Proof.
  induction its as [|[f d] its IH]; simpl.
  - now rewrite str_eqb_refl.
  - destruct (str_eqb f format) eqn:E; simpl; [exact IH|].
    now rewrite E.
Qed.


(** Both arrangements give back the data that was stored. *)
Lemma appending_keepsData : keepsData appending.
Proof.
  intros format data dt. unfold getData. cbn [setData appending items].
  now rewrite find_appended_item.
Qed.


(** ** One event at a time *)

Section SessionFacts.
Context {number : Type} {JN : JSNumber number} {Q : Protocol}.
Variable freshId : list (Project number) -> jsstring.
Implicit Types (s : Page number) (w : World number) (t : ListType) (ev : Event)
  (ps : list (Project number)) (a : Action) (acts : list Action).

Lemma accepts_true w :
  accepts w = true <->
  Validation.validate (textCheck (titleInput w)) = true
  /\ Validation.validate (textCheck (descriptionInput w)) = true
  /\ Validation.validate (mandayCheck (mandayInput w)) = true.
Proof. unfold accepts. rewrite !andb_true_iff. tauto. Qed.

Lemma accepts_false w :
  accepts w = false ->
  Validation.validate (textCheck (titleInput w)) = false
  \/ Validation.validate (textCheck (descriptionInput w)) = false
  \/ Validation.validate (mandayCheck (mandayInput w)) = false.
Proof.
  unfold accepts.
  destruct (Validation.validate (textCheck (titleInput w))); [|auto].
  destruct (Validation.validate (textCheck (descriptionInput w))); [|auto].
  destruct (Validation.validate (mandayCheck (mandayInput w))); [discriminate|auto].
Qed.

(** The page after a submit. *)
Lemma step_submit ev s :
  step freshId (Fire TheInput submit ev) s
  = if accepts (world s) then
      final (addProject freshId (titleInput (world s)) (descriptionInput (world s))
               (ToNumber (mandayInput (world s)))
               (onWorld (fun w => withInputs [] [] [] (withPrevented true w)) s))
    else onWorld (fun w => withAlert alert_message (withPrevented true w)) s.
Proof.
  unfold step.
  destruct (accepts (world s)) eqn:E.
  - apply accepts_true in E as (H1 & H2 & H3).
    now rewrite (submit_accepted_eq freshId ev s H1 H2 H3).
  - apply accepts_false in E. rewrite dispatch_submit.
    unfold submitFunc, bind at 1. simpl. unfold bind at 1.
    rewrite gatherInputs_rejects by exact E. reflexivity.
Qed.

(** The page after a drag-over on a list. *)
Lemma step_dragover t ev s :
  step freshId (Fire (TheList t) dragover ev) s
  = onWorld (fun w => if firstIsPlainText ev
                      then setDroppable t true (withPrevented true w)
                      else withPrevented false w) s.
Proof.
  unfold step. rewrite dispatch_dragover.
  unfold dragOverHandler, firstIsPlainText.
  destruct (dataTransfer ev) as [dt|]; [|reflexivity].
  destruct (strict_eq_str _ _); [|reflexivity].
  destruct t; reflexivity.
Qed.

(** The page after a drag-leave on a list. *)
Lemma step_dragleave t ev s :
  step freshId (Fire (TheList t) dragleave ev) s
  = onWorld (fun w => setDroppable t false (withPrevented false w)) s.
Proof.
  unfold step. rewrite dispatch_dragleave.
  destruct t; reflexivity.
Qed.

(** The page after a drop on a list. *)
Lemma step_drop t ev s :
  step freshId (Fire (TheList t) drop ev) s
  = match dataTransfer ev with
    | Some dt =>
        final (changeProjectState (getData dt text_plain) (dropStatus t (world s))
                 (onWorld (withPrevented false) s))
    | None => onWorld (withPrevented false) s
    end.
Proof.
  unfold step. rewrite dispatch_drop.
  unfold dropHandler. destruct (dataTransfer ev) as [dt|]; [|reflexivity].
  unfold bind, getWorld, dropStatus. simpl. destruct t; reflexivity.
Qed.

(** An event no listener was added for changes nothing. *)
Lemma step_unheard (c : Component) (n : EventName) ev s :
  match c, n with
  | TheInput, submit => False
  | TheList _, (dragover | dragleave | drop) => False
  | _, _ => True
  end ->
  step freshId (Fire c n ev) s = onWorld (withPrevented false) s.
Proof.
  destruct c as [|t], n; simpl; intros H; try contradiction; reflexivity.
Qed.

(** The page after a call of the store. *)
Lemma final_addProject aTitle aDescription (aManday : number) s :
  final (addProject freshId aTitle aDescription aManday s)
  = let ps' := projects (state s)
               ++ [mkProject (freshId (projects (state s))) aTitle aDescription aManday Active] in
    mkSys (mkState ps' (listeners (state s)))
          (fst (callListeners 0 (listeners (state s)) ps' (world s) []))
          (calls s ++ snd (callListeners 0 (listeners (state s)) ps' (world s) [])).
Proof. unfold addProject. now rewrite updateListeners_eq. Qed.

Lemma final_changeProjectState projectId newStatus s :
  final (changeProjectState projectId newStatus s)
  = if notifying (ChangeProjectState projectId newStatus) s then
      let ps' := setStatus projectId newStatus (projects (state s)) in
      mkSys (mkState ps' (listeners (state s)))
            (fst (callListeners 0 (listeners (state s)) ps' (world s) []))
            (calls s ++ snd (callListeners 0 (listeners (state s)) ps' (world s) []))
    else s.
Proof.
  unfold changeProjectState, notifying.
  destruct (find _ _) as [p|]; [|reflexivity].
  destruct (status_eqb (status p) newStatus), notifiesUnchanged; simpl;
    try reflexivity; now rewrite updateListeners_eq.
Qed.

End SessionFacts.

(** ** What every action does *)

Section SessionInvariants.
Context {number : Type} {JN : JSNumber number} {Q : Protocol}.
Variable freshId : list (Project number) -> jsstring.
Implicit Types (s : Page number) (w : World number) (t : ListType) (ev : Event)
  (ps : list (Project number)) (a : Action) (acts : list Action).

Lemma sameLists_refl w : sameLists w w.
Proof. intros t. reflexivity. Qed.

Lemma sameLists_trans w1 w2 w3 : sameLists w1 w2 -> sameLists w2 w3 -> sameLists w1 w3.
Proof. intros H1 H2 t. now rewrite H1. Qed.

Lemma sameLists_setDroppable t b w : sameLists w (setDroppable t b w).
Proof. intros t'. destruct t, t'; reflexivity. Qed.

(** Every action is quiet or is one change of the store followed by one
    notification round. *)
Lemma step_effect a s : effect freshId s (step freshId a s).
Proof.
  assert (Hquiet : forall f : World number -> World number,
             (forall t, listCore (getList t (world s)) = listCore (getList t (f (world s)))) ->
             effect freshId s (onWorld f s)).
  { intros f H. left. repeat split. exact H. }
  destruct a as [aT aD aM | c n ev].
  - apply Hquiet. now intros [|].
  - destruct c as [|t].
    + destruct n;
        try (rewrite step_unheard by exact I; apply Hquiet; now intros [|]).
      rewrite step_submit. destruct (accepts (world s)).
      * right. rewrite final_addProject. cbn zeta.
        eexists _, _. split; [left; eauto|]. split; [|reflexivity].
        now intros [|].
      * apply Hquiet. now intros [|].
    + destruct n.
      * rewrite step_unheard by exact I. apply Hquiet. now intros [|].
      * rewrite step_dragover. apply Hquiet.
        destruct (firstIsPlainText ev); intros t'; destruct t, t'; reflexivity.
      * rewrite step_dragleave. apply Hquiet.
        intros t'; destruct t, t'; reflexivity.
      * rewrite step_drop. destruct (dataTransfer ev) as [dt|].
        -- rewrite final_changeProjectState.
           destruct (notifying _ _) eqn:E.
           ++ right. cbn zeta. eexists _, _. split; [|split; [|reflexivity]].
              ** right. exists t, (getData dt text_plain).
                 split; [exact E | reflexivity].
              ** now intros [|].
           ++ apply Hquiet. now intros [|].
        -- apply Hquiet. now intros [|].
Qed.

(** One notification round of the page's two listeners. *)
Lemma page_round ps w :
  let w' := fst (callListeners 0 (pageListeners (number := number)) ps w []) in
  (forall t,
      assignedProjects (getList t w') = viewOf t ps
      /\ (Forall (fun prj => id prj <> listId finished) ps ->
          ul_items (getList t w') = map ProjectItem (viewOf t ps))
      /\ element_type (getList t w') = element_type (getList t w)
      /\ ul_droppable (getList t w') = ul_droppable (getList t w)
      /\ renders (getList t w') = S (renders (getList t w)))
  /\ titleInput w' = titleInput w
  /\ descriptionInput w' = descriptionInput w
  /\ mandayInput w' = mandayInput w
  /\ alerts w' = alerts w
  /\ defaultPrevented w' = defaultPrevented w
  /\ length (snd (callListeners 0 (pageListeners (number := number)) ps w [])) = 2.
Proof.
  intros w'.
  set (w1 := snd (projectListListener active ps w)).
  assert (Ew : w' = snd (projectListListener finished ps w1)) by reflexivity.
  destruct (listener_outside active ps w) as (Ht1 & Hd1 & Hm1 & Ha1 & Hp1 & H1).
  destruct (listener_outside finished ps w1) as (Ht2 & Hd2 & Hm2 & Ha2 & Hp2 & H2).
  fold w1 in Ht1, Hd1, Hm1, Ha1, Hp1, H1. rewrite <- Ew in Ht2, Hd2, Hm2, Ha2, Hp2, H2.
  split; [|repeat split; try congruence; rewrite callListeners_length; reflexivity].
  intros t.
  destruct (H1 t) as (A1 & E1 & D1 & R1). destruct (H2 t) as (A2 & E2 & D2 & R2).
  split; [|split; [|split; [|split]]].
  - rewrite A2. destruct t; cbn [ListType_eqb]; [|reflexivity]. now rewrite A1.
  - intros Hids.
    destruct (listener_items_active ps w) as [Ia If]. fold w1 in Ia, If.
    pose proof (listener_items_finished ps w1) as Hf. cbv zeta in Hf.
    rewrite <- Ew in Hf.
    rewrite onFirstIn_none in Hf.
    + destruct Hf as [Hff Hfa]. destruct t; cbn [getList]; [|exact Hff].
      now rewrite Hfa, Ia.
    + rewrite Ia. apply items_without_id.
      apply Forall_forall. intros prj Hin. apply filter_In in Hin as [Hin _].
      rewrite Forall_forall in Hids. now apply Hids.
  - now rewrite E2, E1.
  - now rewrite D2, D1.
  - rewrite R2, R1. now destruct t.
Qed.

Lemma step_listeners a s : listeners (state (step freshId a s)) = listeners (state s).
Proof.
  destruct (step_effect a s) as [(Hst & _) | (ps' & w0 & _ & _ & ->)].
  - now rewrite Hst.
  - reflexivity.
Qed.

Lemma initialPage_listeners : listeners (state (initialPage (number := number))) = pageListeners.
Proof. reflexivity. Qed.

(** Induction over the pages a session can reach from start-up. *)
Lemma reachable_ind (P : Page number -> Prop) :
  P initialPage ->
  (forall s a, listeners (state s) = pageListeners -> P s -> P (step freshId a s)) ->
  forall acts, P (steps freshId acts initialPage).
Proof.
  intros H0 Hstep acts.
  assert (H : forall s, listeners (state s) = pageListeners -> P s ->
                        P (steps freshId acts s)).
  { induction acts as [|a acts IH]; intros s Hl Hs; simpl; [assumption|].
    apply IH; [now rewrite step_listeners | now apply Hstep]. }
  apply H; [apply initialPage_listeners | assumption].
Qed.

Lemma session_consistent acts : consistent (steps freshId acts initialPage).
Proof.
  apply reachable_ind.
  - intros [|]; reflexivity.
  - intros s a Hl Hs.
    destruct (step_effect a s) as [(Hst & _ & Hsame) | (ps' & w0 & _ & _ & ->)].
    + intros t. specialize (Hs t). specialize (Hsame t). unfold listCore in Hsame.
      injection Hsame as Ha _ Hu _. rewrite Hst, <- Ha. exact Hs.
    + intros t. rewrite Hl. cbn [state world projects].
      destruct (page_round ps' w0) as (Hv & _).
      now destruct (Hv t) as (Ha & _).
Qed.

(** No project of a session has an id the generator never makes. *)
Lemma session_ids_avoid x acts :
  (forall ps, freshId ps <> x) ->
  Forall (fun prj => id prj <> x) (projects (state (steps freshId acts initialPage))).
Proof.
  intros Hgen.
  assert (H : ~ In x (map id (projects (state (steps freshId acts initialPage))))).
  { apply reachable_ind with (P := fun s => ~ In x (map id (projects (state s)))).
    - intros [].
    - intros s a _ Hs.
      destruct (step_effect a s) as [(Hst & _) | (ps' & w0 & Hch & _ & ->)].
      + now rewrite Hst.
      + cbn [state projects].
        destruct Hch as [(aT & aD & aM & ->) | (t & pid & _ & ->)].
        * rewrite map_app, in_app_iff. intros [H | [H | []]]; [now apply Hs|].
          cbn [id] in H. now apply (Hgen (projects (state s))).
        * now rewrite setStatus_ids. }
  apply Forall_forall. intros prj Hin E. apply H. rewrite <- E. now apply in_map.
Qed.

(** With a generator that never makes the id of the 'finished' [ul], the
    [ul]s show what the lists cache. *)
Lemma session_shown acts :
  (forall ps, freshId ps <> listId finished) ->
  shown (steps freshId acts initialPage).
Proof.
  intros Hgen.
  assert (H : forall acts',
            Forall (fun prj => id prj <> listId finished)
                   (projects (state (steps freshId acts' initialPage)))
            /\ shown (steps freshId acts' initialPage)).
  { intros acts'. split; [now apply session_ids_avoid|].
    induction acts' as [|a acts' IH] using rev_ind.
    - intros [|]; reflexivity.
    - unfold steps in *. rewrite fold_left_app. cbn [fold_left].
      set (s := fold_left (fun s a => step freshId a s) acts' initialPage) in *.
      pose proof (session_ids_avoid (listId finished) (acts' ++ [a]) Hgen) as Hids.
      unfold steps in Hids. rewrite fold_left_app in Hids. cbn [fold_left] in Hids.
      fold s in Hids.
      assert (Hl : listeners (state s) = pageListeners).
      { clear. subst s. induction acts' as [|b acts' IHl] using rev_ind; [reflexivity|].
        rewrite fold_left_app. cbn [fold_left]. now rewrite step_listeners. }
      destruct (step_effect a s) as [(Hst & _ & Hsame) | (ps' & w0 & _ & _ & E)].
      + intros t. specialize (IH t). specialize (Hsame t). unfold listCore in Hsame.
        injection Hsame as _ _ Hu _. rewrite Hst, <- Hu. exact IH.
      + rewrite E in *. intros t. rewrite Hl. cbn [state world projects] in *.
        destruct (page_round ps' w0) as (Hv & _).
        destruct (Hv t) as (_ & Hu & _). now apply Hu. }
  apply H.
Qed.

(** X3: in every page a session reaches from start-up, whatever the user
    types and whatever events arrive, each list caches exactly the store's
    projects of its status, in the store's order, so every project of the
    store is cached by exactly one list; and as long as the id generator
    never makes 'finished-projects-list', the id of the second [ul], the
    [ul] of each list holds one item per cached project, in that order. *)
Theorem views_follow_the_store acts t :
  let s := steps freshId acts initialPage in
  assignedProjects (getList t (world s))
  = filter (fun prj => status_eqb (status prj) (bucketStatus t)) (projects (state s))
  /\ Permutation
       (assignedProjects (activeList (world s)) ++ assignedProjects (finishedList (world s)))
       (projects (state s))
  /\ ((forall ps, freshId ps <> listId finished) ->
      ul_items (getList t (world s))
      = map ProjectItem (assignedProjects (getList t (world s)))).
Proof.
  intros s. pose proof (session_consistent acts) as H. fold s in H.
  split; [exact (H t)|]. split.
  - pose proof (H active) as Haa. pose proof (H finished) as Hfa.
    cbn [getList] in Haa, Hfa. rewrite Haa, Hfa.
    apply filter_status_split.
  - intros Hgen. rewrite (H t). now apply session_shown.
Qed.

(** X4: the two lists are always rendered together, once per notification
    round: in every reachable page they have rendered the same number of
    times, and the notification log has two entries per rendering. *)
Theorem lists_render_together acts :
  let s := steps freshId acts initialPage in
  renders (activeList (world s)) = renders (finishedList (world s))
  /\ length (calls s) = 2 * renders (activeList (world s)).
Proof.
  apply reachable_ind with
    (P := fun s => renders (activeList (world s)) = renders (finishedList (world s))
                   /\ length (calls s) = 2 * renders (activeList (world s))).
  - split; reflexivity.
  - intros s a Hl [Hr Hc].
    destruct (step_effect a s) as [(_ & Hcalls & Hsame) | (ps' & w0 & _ & Hsame & ->)].
    + pose proof (Hsame active) as Ha. pose proof (Hsame finished) as Hf.
      unfold listCore in Ha, Hf. cbn [getList] in Ha, Hf.
      injection Ha as _ _ _ Ha. injection Hf as _ _ _ Hf.
      rewrite Hcalls, <- Ha, <- Hf. now split.
    + rewrite Hl. cbn [world calls].
      destruct (page_round ps' w0) as (Hv & _ & _ & _ & _ & _ & Hlen).
      destruct (Hv active) as (_ & _ & _ & _ & Ha).
      destruct (Hv finished) as (_ & _ & _ & _ & Hf).
      cbn [getList] in Ha, Hf. rewrite Ha, Hf, length_app, Hlen.
      pose proof (Hsame active) as Ha'. pose proof (Hsame finished) as Hf'.
      unfold listCore in Ha', Hf'. cbn [getList] in Ha', Hf'.
      injection Ha' as _ _ _ Ha'. injection Hf' as _ _ _ Hf'.
      rewrite <- Ha', <- Hf'. split; lia.
Qed.

(** *** The life of a project *)

Lemma setStatus_nth projectId newStatus ps i (p : Project number) :
  nth_error ps i = Some p ->
  exists p',
    nth_error (setStatus projectId newStatus ps) i = Some p'
    /\ frozen p' = frozen p
    /\ (status p' = status p \/ status p' = newStatus).
Proof.
  revert i. induction ps as [|q ps IH]; intros [|i] H; simpl in *; try discriminate.
  - injection H as ->.
    destruct (str_eqb (id p) projectId); simpl; eexists; split; try reflexivity; auto.
  - destruct (str_eqb (id q) projectId); simpl; [eauto|]. now apply IH.
Qed.

Lemma setStatus_length projectId newStatus ps :
  length (setStatus projectId newStatus ps) = length ps.
Proof. rewrite <- (length_map id), setStatus_ids. apply length_map. Qed.

(** What a change of the store does to the project at a given place. *)
Lemma storeChange_nth s ps' i (p : Project number) :
  storeChange freshId s ps' ->
  nth_error (projects (state s)) i = Some p ->
  exists p',
    nth_error ps' i = Some p'
    /\ frozen p' = frozen p
    /\ (status p' = status p \/ exists t, status p' = dropStatus t (world s)).
Proof.
  intros [(aT & aD & aM & ->) | (t & pid & _ & ->)] H.
  - exists p. rewrite nth_error_app1 by (apply nth_error_Some; congruence). auto.
  - destruct (setStatus_nth pid (dropStatus t (world s)) _ _ _ H) as (p' & H1 & H2 & H3).
    exists p'. repeat split; try assumption. destruct H3; eauto.
Qed.

Lemma storeChange_length s ps' :
  storeChange freshId s ps' ->
  length (projects (state s)) <= length ps' <= S (length (projects (state s))).
Proof.
  intros [(aT & aD & aM & ->) | (t & pid & _ & ->)].
  - rewrite length_app. simpl. lia.
  - rewrite setStatus_length. lia.
Qed.

Lemma step_keeps_projects a s i (p : Project number) :
  nth_error (projects (state s)) i = Some p ->
  exists p',
    nth_error (projects (state (step freshId a s))) i = Some p'
    /\ frozen p' = frozen p
    /\ (status p' = status p \/ exists t, status p' = dropStatus t (world s)).
Proof.
  intros H.
  destruct (step_effect a s) as [(Hst & _) | (ps' & w0 & Hch & _ & ->)].
  - rewrite Hst. eauto.
  - now apply storeChange_nth.
Qed.

Lemma step_length a s :
  length (projects (state s)) <= length (projects (state (step freshId a s)))
  <= S (length (projects (state s))).
Proof.
  destruct (step_effect a s) as [(Hst & _) | (ps' & w0 & Hch & _ & ->)].
  - rewrite Hst. lia.
  - now apply storeChange_length.
Qed.

(** X5: no action removes, moves or rewrites a project.  After any
    session, from any page, every project is still at its place with its
    id, title, description and manday; the sequence has grown by at most
    one project per action. *)
Theorem projects_are_never_lost acts s :
  (forall i p,
      nth_error (projects (state s)) i = Some p ->
      exists p',
        nth_error (projects (state (steps freshId acts s))) i = Some p'
        /\ frozen p' = frozen p)
  /\ length (projects (state s)) <= length (projects (state (steps freshId acts s)))
     <= length (projects (state s)) + length acts.
Proof.
  revert s. induction acts as [|a acts IH]; intros s; simpl.
  - split; [eauto | lia].
  - destruct (IH (step freshId a s)) as [Hnth Hlen]. split.
    + intros i p H.
      destruct (step_keeps_projects a s i p H) as (p1 & H1 & Hf1 & _).
      destruct (Hnth i p1 H1) as (p2 & H2 & Hf2).
      exists p2. split; [assumption | congruence].
    + pose proof (step_length a s). lia.
Qed.

Lemma ordinary_step a s : ordinary s -> ordinary (step freshId a s).
Proof.
  intros [Hl Hty]. split; [now rewrite step_listeners|].
  intros t.
  destruct (step_effect a s) as [(_ & _ & Hsame) | (ps' & w0 & _ & Hsame & ->)].
  - specialize (Hsame t). unfold listCore in Hsame.
    injection Hsame as _ He _ _. now rewrite <- He.
  - rewrite Hl. cbn [world].
    destruct (page_round ps' w0) as (Hv & _). destruct (Hv t) as (_ & _ & He & _).
    rewrite He. specialize (Hsame t). unfold listCore in Hsame.
    injection Hsame as _ He' _ _. now rewrite <- He'.
Qed.

Lemma ordinary_steps acts s : ordinary s -> ordinary (steps freshId acts s).
Proof.
  revert s. induction acts as [|a acts IH]; intros s H; simpl; [assumption|].
  apply IH. now apply ordinary_step.
Qed.

Lemma ordinary_initialPage : ordinary initialPage.
Proof. split; [reflexivity | now intros [|]]. Qed.

Lemma ordinary_dropStatus s t : ordinary s -> dropStatus t (world s) = Finished.
Proof. intros [_ H]. unfold dropStatus. now rewrite H. Qed.

(** X6: in a session started by start-up, a project that is Finished stays
    Finished: no sequence of typing and events, drops on the 'active'
    list included, makes it Active again. *)
Theorem finished_stays_finished acts0 acts i (p : Project number) :
  let s := steps freshId acts0 initialPage in
  nth_error (projects (state s)) i = Some p ->
  status p = Finished ->
  exists p',
    nth_error (projects (state (steps freshId acts s))) i = Some p'
    /\ frozen p' = frozen p
    /\ status p' = Finished.
Proof.
  intros s.
  assert (Hs : ordinary s) by (apply ordinary_steps, ordinary_initialPage).
  clearbody s. revert s Hs p.
  induction acts as [|a acts IH]; intros s Hs p H Hfin; simpl.
  - eauto.
  - destruct (step_keeps_projects a s i p H) as (p1 & H1 & Hf1 & Hst).
    assert (Hfin1 : status p1 = Finished).
    { destruct Hst as [-> | (t & ->)]; [assumption | now apply ordinary_dropStatus]. }
    destruct (IH (step freshId a s) (ordinary_step a s Hs) p1 H1 Hfin1)
      as (p2 & H2 & Hf2 & Hfin2).
    exists p2. repeat split; [assumption | congruence | assumption].
Qed.

(** Ids stay unique through a session, from any page where they are. *)
Lemma session_ids_unique acts s :
  (forall ps, ~ In (freshId ps) (map id ps)) ->
  NoDup (map id (projects (state s))) ->
  NoDup (map id (projects (state (steps freshId acts s)))).
Proof.
  intros fresh. revert s. induction acts as [|a acts IH]; intros s H; simpl; [assumption|].
  apply IH.
  destruct (step_effect a s)
    as [(Hst & _) | (ps' & w0 & [(aT & aD & aM & ->) | (t & pid & _ & ->)] & _ & ->)].
  - now rewrite Hst.
  - pose proof (ids_stay_unique freshId (AddProject aT aD aM)
                  (mkSys (state s) w0 (calls s)) fresh H) as Hu.
    cbn [perform] in Hu. rewrite final_addProject in Hu. exact Hu.
  - cbn [state projects]. now rewrite setStatus_ids.
Qed.

(** With an id generator that never returns an id in use, the ids of the
    projects are pairwise distinct in every page a session reaches from
    start-up. *)
Lemma ids_are_unique acts :
  (forall ps, ~ In (freshId ps) (map id ps)) ->
  NoDup (map id (projects (state (steps freshId acts initialPage)))).
Proof. intros fresh. apply session_ids_unique; [assumption | constructor]. Qed.

(** *** Moving a project *)

Lemma find_by_unique_id ps (p : Project number) :
  NoDup (map id ps) -> In p ps ->
  find (fun q => str_eqb (id q) (id p)) ps = Some p.
Proof.
  induction ps as [|q ps IH]; simpl; intros Hnd Hin; [contradiction|].
  inversion Hnd as [|? ? Hq Hnd']; subst.
  destruct Hin as [-> | Hin]; [now rewrite str_eqb_refl|].
  destruct (str_eqb (id q) (id p)) eqn:E; [|now apply IH].
  apply str_eqb_eq in E. exfalso. apply Hq. rewrite E. now apply in_map.
Qed.

Lemma setStatus_by_unique_id ps (p : Project number) newStatus :
  NoDup (map id ps) -> In p ps ->
  setStatus (id p) newStatus ps
  = map (fun q => if str_eqb (id q) (id p) then with_status q newStatus else q) ps.
Proof.
  induction ps as [|q ps IH]; simpl; intros Hnd Hin; [contradiction|].
  inversion Hnd as [|? ? Hq Hnd']; subst.
  destruct (str_eqb (id q) (id p)) eqn:E.
  - f_equal. apply str_eqb_eq in E.
    clear IH Hin Hnd Hnd'. induction ps as [|r ps IH]; simpl; [reflexivity|].
    destruct (str_eqb (id r) (id p)) eqn:E'.
    + apply str_eqb_eq in E'. exfalso. apply Hq. left. congruence.
    + f_equal. apply IH. intros H. apply Hq. now right.
  - f_equal. destruct Hin as [-> | Hin]; [now rewrite str_eqb_refl in E|].
    now apply IH.
Qed.

Lemma active_view_without ps (p : Project number) :
  viewOf active
    (map (fun q => if str_eqb (id q) (id p) then with_status q Finished else q) ps)
  = filter (fun q => negb (str_eqb (id q) (id p))) (viewOf active ps).
Proof.
  unfold viewOf. cbn [bucketStatus].
  induction ps as [|q ps IH]; [reflexivity|].
  cbn [map filter]. destruct (str_eqb (id q) (id p)) eqn:E.
  - cbn [with_status status status_eqb].
    destruct (status q); cbn [status_eqb filter]; rewrite ?E; cbn [negb]; exact IH.
  - destruct (status q); cbn [status_eqb filter]; rewrite ?E; cbn [negb];
      [now rewrite IH | exact IH].
Qed.

(** X7: in a session started by start-up, with an id generator that never
    returns an id in use, a drop on the 'finished' list whose payload
    carries the id of an Active project makes that project, and no other,
    Finished; the project keeps its place in the store.  The 'finished'
    list then caches it, and the 'active' list caches what it cached
    before without it.  As long as the generator never makes
    'finished-projects-list', the id of the second [ul], the [ul] of each
    list holds one item per cached project. *)
Theorem drop_on_finished_moves_the_project acts (p : Project number) dt :
  (forall ps, ~ In (freshId ps) (map id ps)) ->
  let s := steps freshId acts initialPage in
  In p (projects (state s)) ->
  status p = Active ->
  getData dt text_plain = id p ->
  let s' := step freshId (Fire (TheList finished) drop (mkEvent (Some dt))) s in
  let moved q := if str_eqb (id q) (id p) then with_status q Finished else q in
  projects (state s') = map moved (projects (state s))
  /\ In (with_status p Finished) (assignedProjects (finishedList (world s')))
  /\ assignedProjects (activeList (world s'))
     = filter (fun q => negb (str_eqb (id q) (id p)))
              (assignedProjects (activeList (world s)))
  /\ ((forall ps, freshId ps <> listId finished) ->
      forall t, ul_items (getList t (world s'))
                = map ProjectItem (assignedProjects (getList t (world s')))).
Proof.
  intros fresh s Hin Hact Hdata s' moved.
  assert (Hord : ordinary s) by (apply ordinary_steps, ordinary_initialPage).
  assert (Hnd : NoDup (map id (projects (state s))))
    by (apply session_ids_unique; [assumption | constructor]).
  pose proof (session_consistent acts active) as Hview. fold s in Hview.
  cbn [getList] in Hview.
  assert (Hshown : (forall ps, freshId ps <> listId finished) ->
            forall t, ul_items (getList t (world s'))
                      = map ProjectItem (assignedProjects (getList t (world s')))).
  { intros Hgen t.
    assert (E : s' = steps freshId
                       (acts ++ [Fire (TheList finished) drop (mkEvent (Some dt))])
                       initialPage)
      by (unfold steps; rewrite fold_left_app; reflexivity).
    rewrite E, (session_consistent _ t). now apply session_shown. }
  revert Hshown.
  subst s'. rewrite step_drop. cbn [dataTransfer].
  rewrite Hdata, (ordinary_dropStatus s finished Hord), final_changeProjectState.
  unfold notifying. cbn [state onWorld projects].
  rewrite (find_by_unique_id _ p Hnd Hin), Hact. cbn [status_eqb negb orb].
  cbn zeta. rewrite (setStatus_by_unique_id _ p Finished Hnd Hin). fold moved.
  destruct Hord as [-> _]. cbn [state world projects].
  match goal with |- context [callListeners 0 pageListeners ?ps ?w []] =>
    destruct (page_round ps w) as (Hv & _) end.
  destruct (Hv active) as (Haa & _). destruct (Hv finished) as (Hfa & _).
  cbn [getList] in Haa, Hfa.
  intros Hshown.
  split; [reflexivity|]. split; [|split].
  - rewrite Hfa. unfold viewOf. apply filter_In. split; [|reflexivity].
    replace (with_status p Finished) with (moved p)
      by (unfold moved; now rewrite str_eqb_refl).
    now apply in_map.
  - rewrite Haa, Hview. apply active_view_without.
  - exact Hshown.
Qed.

(** *** The highlight *)

(** X8: a drag-leave undoes what a drag-over did.  After a drag-over and
    a drag-leave on the same list, whatever the two events carry, the
    list is not highlighted, and the store, the notification log, the form
    and the other list are as they were before the drag-over. *)
Theorem dragleave_undoes_dragover t ev ev' s :
  let s1 := step freshId (Fire (TheList t) dragover ev) s in
  let s2 := step freshId (Fire (TheList t) dragleave ev') s1 in
  state s2 = state s
  /\ calls s2 = calls s
  /\ world s2 = setDroppable t false (withPrevented false (world s)).
Proof.
  intros s1 s2. subst s1 s2. rewrite step_dragleave, step_dragover.
  repeat split. cbn [onWorld world].
  destruct (firstIsPlainText ev), t; reflexivity.
Qed.

(** X9: a drop never touches the highlight.  In a session started by
    start-up, after a drag-over and then a drop on a list, the list is
    highlighted if the drag-over was accepted or the list was highlighted
    before: only a drag-leave removes the highlight. *)
Theorem drop_keeps_the_highlight acts t ev ev' :
  let s := steps freshId acts initialPage in
  let s1 := step freshId (Fire (TheList t) dragover ev) s in
  let s2 := step freshId (Fire (TheList t) drop ev') s1 in
  (forall t', ul_droppable (getList t' (world s2)) = ul_droppable (getList t' (world s1)))
  /\ ul_droppable (getList t (world s2))
     = firstIsPlainText ev || ul_droppable (getList t (world s)).
Proof.
  intros s s1 s2.
  assert (Hord : ordinary s1)
    by (apply ordinary_step, ordinary_steps, ordinary_initialPage).
  assert (H1 : ul_droppable (getList t (world s1))
               = firstIsPlainText ev || ul_droppable (getList t (world s))).
  { subst s1. rewrite step_dragover. cbn [onWorld world].
    destruct (firstIsPlainText ev), t; reflexivity. }
  assert (H2 : forall t', ul_droppable (getList t' (world s2))
                          = ul_droppable (getList t' (world s1))).
  { intros t'. subst s2. rewrite step_drop.
    destruct (dataTransfer ev') as [dt|]; [|now destruct t'].
    rewrite final_changeProjectState. destruct (notifying _ _); [|now destruct t'].
    destruct Hord as [Hl _]. cbn zeta. cbn [onWorld state world]. rewrite Hl.
    match goal with |- context [callListeners 0 pageListeners ?ps ?w []] =>
      destruct (page_round ps w) as (Hv & _) end.
    destruct (Hv t') as (_ & _ & _ & Hd & _). rewrite Hd. now destruct t'. }
  split; [exact H2 | now rewrite H2].
Qed.

(** *** Submitting twice *)

Lemma empty_title_is_rejected w : titleInput w = [] -> accepts w = false.
Proof. intros H. unfold accepts. rewrite H. reflexivity. Qed.

(** X10: in a session started by start-up, when a submission is accepted,
    submitting again at once adds nothing: the first submission appends
    one project and empties the inputs, the second is rejected with one
    alert, and the store and the notification log stay as the first left
    them. *)
Theorem second_submit_is_rejected acts ev ev' :
  let s := steps freshId acts initialPage in
  accepts (world s) = true ->
  let s1 := step freshId (Fire TheInput submit ev) s in
  let s2 := step freshId (Fire TheInput submit ev') s1 in
  length (projects (state s1)) = S (length (projects (state s)))
  /\ inputsCleared (world s1)
  /\ state s2 = state s1
  /\ calls s2 = calls s1
  /\ alerts (world s2) = alerts (world s) ++ [alert_message].
Proof.
  intros s Hacc s1 s2.
  assert (Hord : ordinary s) by (apply ordinary_steps, ordinary_initialPage).
  destruct Hord as [Hl _].
  assert (E1 : s1 = final (addProject freshId (titleInput (world s))
                             (descriptionInput (world s)) (ToNumber (mandayInput (world s)))
                             (onWorld (fun w => withInputs [] [] [] (withPrevented true w)) s)))
    by (subst s1; now rewrite step_submit, Hacc).
  rewrite final_addProject in E1. cbn zeta in E1. cbn [onWorld state world calls] in E1.
  rewrite Hl in E1.
  match type of E1 with context [callListeners 0 pageListeners ?ps ?w []] =>
    destruct (page_round ps w) as (_ & Ht & Hd & Hm & Ha & _) end.
  assert (Hin : inputsCleared (world s1)).
  { rewrite E1. cbn [world]. repeat split; assumption. }
  assert (E2 : s2 = onWorld (fun w => withAlert alert_message (withPrevented true w)) s1).
  { subst s2. rewrite step_submit.
    now rewrite (empty_title_is_rejected (world s1) (proj1 Hin)). }
  split; [rewrite E1; cbn [state projects]; rewrite length_app; simpl; lia|].
  split; [exact Hin|]. rewrite E2. repeat split.
  cbn [onWorld world withAlert alerts]. cbn [withPrevented alerts].
  rewrite E1. cbn [world]. now rewrite Ha.
Qed.

(** *** From the item to the store *)


End SessionInvariants.

(** ** Instances on the sample session *)

Section SampleSessionFacts.
#[local] Existing Instance asReported.

Lemma sampleSession_projects :
  projects (state (steps paddedId sampleSession initialPage))
  = [websiteProject; shopProject].
Proof. vm_compute. reflexivity. Qed.

Lemma finished_stays_finished_witness :
  exists p',
    nth_error
      (projects
         (state
            (steps paddedId
               [Fire (TheList active) drop (mkEvent (Some (dragStartHandler websiteProject)))]
               (steps paddedId sampleSession initialPage))))
      0 = Some p'
    /\ frozen p' = frozen websiteProject
    /\ status p' = Finished.
Proof.
  apply (finished_stays_finished paddedId sampleSession
           [Fire (TheList active) drop (mkEvent (Some (dragStartHandler websiteProject)))]
           0 websiteProject).
  - rewrite sampleSession_projects. reflexivity.
  - reflexivity.
Defined.

Lemma drop_on_finished_moves_the_project_witness :
  let s := steps paddedId sampleSession initialPage in
  let s' := step paddedId
              (Fire (TheList finished) drop (mkEvent (Some (dragStartHandler shopProject)))) s in
  let moved q :=
    if str_eqb (id q) (id shopProject) then with_status q Finished else q in
  projects (state s') = map moved (projects (state s))
  /\ In (with_status shopProject Finished) (assignedProjects (finishedList (world s')))
  /\ assignedProjects (activeList (world s'))
     = filter (fun q => negb (str_eqb (id q) (id shopProject)))
              (assignedProjects (activeList (world s)))
  /\ (forall t, ul_items (getList t (world s'))
                = map ProjectItem (assignedProjects (getList t (world s')))).
Proof.
  assert (Hin : In shopProject (projects (state (steps paddedId sampleSession initialPage))))
    by (rewrite sampleSession_projects; right; left; reflexivity).
  destruct (drop_on_finished_moves_the_project paddedId sampleSession shopProject
              (dragStartHandler shopProject) (paddedId_fresh _) Hin eq_refl eq_refl)
    as (Hstore & Hfinished & Hactive & Hshown).
  split; [exact Hstore|]. split; [exact Hfinished|]. split; [exact Hactive|].
  apply Hshown. intros ps. apply paddedId_avoids_listId.
Defined.

Lemma second_submit_is_rejected_witness :
  let s := steps paddedId [TypeInto (js "Website") (js "Build it") (js "10")]
                 (initialPage (number := Double.number)) in
  let s1 := step paddedId (Fire TheInput submit (mkEvent None)) s in
  let s2 := step paddedId (Fire TheInput submit (mkEvent None)) s1 in
  length (projects (state s1)) = S (length (projects (state s)))
  /\ inputsCleared (world s1)
  /\ state s2 = state s1
  /\ calls s2 = calls s1
  /\ alerts (world s2) = alerts (world s) ++ [alert_message].
Proof.
  apply (second_submit_is_rejected paddedId
           [TypeInto (js "Website") (js "Build it") (js "10")]
           (mkEvent None) (mkEvent None)).
  vm_compute. reflexivity.
Defined.

Lemma views_follow_the_store_witness :
  let s := steps paddedId sampleSession initialPage in
  (forall ps : list (Project Double.number), paddedId ps <> listId finished)
  /\ assignedProjects (finishedList (world s))
     = filter (fun prj => status_eqb (status prj) Finished) (projects (state s))
  /\ ul_items (finishedList (world s))
     = map ProjectItem (assignedProjects (finishedList (world s))).
Proof.
  intros s.
  pose proof (views_follow_the_store paddedId sampleSession finished) as H.
  cbv zeta in H. fold s in H. clearbody s. cbn [getList bucketStatus] in H.
  destruct H as (Hview & _ & Hshown).
  split; [intros ps; apply paddedId_avoids_listId|].
  split; [exact Hview|].
  apply Hshown. intros ps. apply paddedId_avoids_listId.
Defined.


End SampleSessionFacts.

(** ** Events without a payload *)

(** X11: an event without a payload is tolerated by the drag-over, which
    returns and leaves the page alone, but not by the drop, which throws
    before it reaches the store: the store, the notification log, the form
    and the lists stay as they were. *)
Theorem drop_without_payload_throws (number : Type) (JN : JSNumber number)
    (Q : Protocol) (freshId : list (Project number) -> jsstring) (t : ListType) (s : Page number) :
  dispatchEvent freshId (TheList t) drop (mkEvent None) s
  = Throws type_error (onWorld (withPrevented false) s)
  /\ dispatchEvent freshId (TheList t) dragover (mkEvent None) s
     = Returns tt (onWorld (withPrevented false) s).
Proof.
  rewrite dispatch_drop, dispatch_dragover. split; reflexivity.
Qed.
